(** * stockcharts: chart engine and series generator

    A shallow embedding of the JavaScript sources
      - [src/components/Chart.jsx] (and its two sibling variants, the
        dashboard [Chart] and the stand-alone [StockChart]),
      - [src/lib/data-generator.js],
      - [src/components/Tooltip.jsx].

    Conventions of the embedding.
      - A JavaScript number is a [num]: [NaN], the two infinities, or a
        finite value carried as an exact rational.  Rounding of binary64
        arithmetic and the sign of zero are not represented; everything
        else ([NaN] propagation, arithmetic on infinities, what
        [Math.min()] and [Math.max()] return without arguments) follows
        ECMAScript.
      - A JavaScript object used as a record ([dataPoint],
        [initialValues]) is a [gmap string jsval]; property names built
        with template strings are built here with string append, so two
        names that coincide address the same slot, as in the source.
        Names that JavaScript treats specially (["__proto__"]) are not
        told apart from ordinary ones.
      - [Math.random] is a stream of draws read through a counter that
        the generator threads along.
      - A [Date] is its time value in milliseconds; local time is UTC
        shifted by a fixed offset (no daylight saving), and the dates
        the generator makes are taken to stay in the range of [Date],
        where [toISOString] does not throw.
      - d3 is not part of the repository: scales, [rescaleX]/[rescaleY]
        and the clamp of the zoom behaviour follow d3-scale and
        d3-zoom; an animated reset is represented by its end state. *)

From Stdlib Require Import QArith Qround Qabs Qminmax Lqa ZArith Lia Ascii String.
From stdpp Require Import gmap strings list.

Local Open Scope Q_scope.

(** ** JavaScript numbers *)

Module JsNumber.

Inductive num : Type :=
  | NaN
  | NegInf
  | Fin (q : Q)
  | PosInf.

Definition isNaN (x : num) : bool :=
  match x with NaN => true | _ => false end.

(** [signed_inf (0 ?= a)] is [a * Infinity]. *)
Definition signed_inf (c : comparison) : num :=
  match c with Lt => PosInf | Gt => NegInf | Eq => NaN end.

Definition neg (x : num) : num :=
  match x with
  | NaN => NaN
  | NegInf => PosInf
  | PosInf => NegInf
  | Fin q => Fin (- q)
  end.

Definition add (x y : num) : num :=
  match x, y with
  | NaN, _ | _, NaN => NaN
  | PosInf, NegInf | NegInf, PosInf => NaN
  | PosInf, _ | _, PosInf => PosInf
  | NegInf, _ | _, NegInf => NegInf
  | Fin a, Fin b => Fin (a + b)
  end.

Definition sub (x y : num) : num := add x (neg y).

Definition mul (x y : num) : num :=
  match x, y with
  | NaN, _ | _, NaN => NaN
  | Fin a, Fin b => Fin (a * b)
  | Fin a, PosInf | PosInf, Fin a => signed_inf (0 ?= a)
  | Fin a, NegInf | NegInf, Fin a => neg (signed_inf (0 ?= a))
  | PosInf, PosInf | NegInf, NegInf => PosInf
  | PosInf, NegInf | NegInf, PosInf => NegInf
  end.

(** Division; a zero divisor is taken as [+0]. *)
Definition div (x y : num) : num :=
  match x, y with
  | NaN, _ | _, NaN => NaN
  | Fin a, Fin b =>
      if Qeq_bool b 0 then signed_inf (0 ?= a) else Fin (a / b)
  | Fin _, (PosInf | NegInf) => Fin 0
  | PosInf, Fin b => if Qle_bool 0 b then PosInf else NegInf
  | NegInf, Fin b => if Qle_bool 0 b then NegInf else PosInf
  | (PosInf | NegInf), (PosInf | NegInf) => NaN
  end.

(** [Math.abs]. *)
Definition abs (x : num) : num :=
  match x with
  | NaN => NaN
  | NegInf | PosInf => PosInf
  | Fin q => Fin (Qabs q)
  end.

(** [Math.floor]. *)
Definition floor (x : num) : num :=
  match x with
  | Fin q => Fin (inject_Z (Qfloor q))
  | _ => x
  end.

(** The relational operator [x < y]. *)
Definition ltb (x y : num) : bool :=
  match x, y with
  | NaN, _ | _, NaN => false
  | _, NegInf => false
  | NegInf, _ => true
  | PosInf, _ => false
  | Fin _, PosInf => true
  | Fin a, Fin b => negb (Qle_bool b a)
  end.

(** Strict equality [x === y] on numbers. *)
Definition eqb (x y : num) : bool :=
  match x, y with
  | NegInf, NegInf | PosInf, PosInf => true
  | Fin a, Fin b => Qeq_bool a b
  | _, _ => false
  end.

(** The order of the extended number line; [NaN] is not related to
    anything. *)
Definition le (x y : num) : Prop :=
  match x, y with
  | NaN, _ | _, NaN => False
  | NegInf, _ => True
  | _, PosInf => True
  | Fin a, Fin b => a <= b
  | _, _ => False
  end.

(** [Math.max(...l)]: starts from [-Infinity], gives [NaN] as soon as an
    argument is [NaN]. *)
Fixpoint max_from (highest : num) (l : list num) : num :=
  match l with
  | [] => highest
  | x :: l' =>
      if isNaN x then NaN
      else max_from (if ltb highest x then x else highest) l'
  end.

Definition Math_max (l : list num) : num := max_from NegInf l.

(** [Math.min(...l)]: starts from [+Infinity]. *)
Fixpoint min_from (lowest : num) (l : list num) : num :=
  match l with
  | [] => lowest
  | x :: l' =>
      if isNaN x then NaN
      else min_from (if ltb x lowest then x else lowest) l'
  end.

Definition Math_min (l : list num) : num := min_from PosInf l.

End JsNumber.

Import JsNumber.

(** ** Objects and property values *)

(** What a property of a data point holds: a number, or the ISO-8601
    string that [toISOString] made from the time value [t]. *)
Inductive jsval : Type :=
  | JNum (x : num)
  | JIso (t : Z).

Abbreviation obj := (gmap string jsval).

(** [ToNumber] of a property read; a missing property reads as
    [undefined], and neither [undefined] nor a date string is numeric. *)
Definition toNum (v : option jsval) : num :=
  match v with
  | Some (JNum x) => x
  | _ => NaN
  end.

(** The global [isNaN(v)]. *)
Definition js_isNaN (v : option jsval) : bool := isNaN (toNum v).

(** ** Visible entities: [toggleCompany] *)

(** [prev.includes(company) ? prev.filter((c) => c !== company)
                            : [...prev, company]]; the same update in
    all three chart components. *)
Definition toggleCompany (company : string) (prev : list string) : list string :=
  if bool_decide (company ∈ prev)
  then filter (λ c, c ≠ company) prev
  else prev ++ [company].

(** ** Dates *)

Module JsDate.

Local Open Scope Z_scope.

Definition msPerHour : Z := 3600000.
Definition msPerDay : Z := 86400000.

(** Local time is UTC shifted by the fixed offset [tz] (milliseconds). *)
Definition LocalTime (tz t : Z) : Z := t + tz.
Definition UTC (tz t : Z) : Z := t - tz.

Definition Day (t : Z) : Z := t / msPerDay.
Definition TimeWithinDay (t : Z) : Z := t mod msPerDay.
Definition HourFromTime (t : Z) : Z := (t / msPerHour) mod 24.

(** Day of the month (1..31) of the day numbered [z] since 1970-01-01,
    in the proleptic Gregorian calendar. *)
Definition DateFromDay (z : Z) : Z :=
  let z := z + 719468 in
  let era := z / 146097 in
  let doe := z - era * 146097 in
  let yoe := (doe - doe / 1460 + doe / 36524 - doe / 146096) / 365 in
  let doy := doe - (365 * yoe + yoe / 4 - yoe / 100) in
  let mp := (5 * doy + 2) / 153 in
  doy - (153 * mp + 2) / 5 + 1.

Definition DateFromTime (t : Z) : Z := DateFromDay (Day t).

Definition getHours (tz t : Z) : Z := HourFromTime (LocalTime tz t).
Definition getDate (tz t : Z) : Z := DateFromTime (LocalTime tz t).

(** [date.setHours(h)]: same local day, minutes, seconds and
    milliseconds, hour [h] (any integer; hours outside 0..23 carry into
    the day). *)
Definition setHours (tz t h : Z) : Z :=
  let tl := LocalTime tz t in
  UTC tz (Day tl * msPerDay + (h * msPerHour + tl mod msPerHour)).

(** [date.setDate(d)]: same local month and time of day, day of the
    month [d] (any integer; [MakeDay] counts [d - 1] days from the first
    of the month, which is [DateFromTime - 1] days before the current
    day). *)
Definition setDate (tz t d : Z) : Z :=
  let tl := LocalTime tz t in
  UTC tz ((Day tl - (DateFromTime tl - 1) + (d - 1)) * msPerDay
          + TimeWithinDay tl).

End JsDate.

(** Truncation toward zero ([ToIntegerOrInfinity]). *)
Definition Qtruncate (q : Q) : Z := Z.quot (Qnum q) (Zpos (Qden q)).

(** [new Date(v)] for a property value, as the time value of the
    resulting date when it is valid: an ISO string parses back to its
    instant, a finite number in the time range is truncated to an
    integer, anything else gives an invalid date. *)
Definition newDate (v : option jsval) : option Z :=
  match v with
  | Some (JIso t) => Some t
  | Some (JNum (Fin q)) =>
      if Qle_bool (Qabs q) 8640000000000000 then Some (Qtruncate q) else None
  | _ => None
  end.

(** ** [Math.random] and the generator's state *)

Section Random.

(** The draws [Math.random] returns, in call order. *)
Variable rand : nat → Q.

(** A computation that has read its draws through a counter. *)
Definition M (A : Type) : Type := nat → A * nat.

Definition ret {A} (a : A) : M A := λ s, (a, s).

Definition bind {A B} (m : M A) (f : A → M B) : M B :=
  λ s, let '(a, s') := m s in f a s'.

Definition Math_random : M num := λ s, (Fin (rand s), S s).

(** [l.forEach(body)] where the body updates one object. *)
Fixpoint forEach {A} (l : list string) (body : string → A → M A) (a : A) : M A :=
  match l with
  | [] => ret a
  | c :: l' => bind (body c a) (forEach l' body)
  end.

(** [for (let i = i0; i < numPoints; i++) { ...; data.push(dataPoint) }]
    with [fuel] iterations left; the body sees the index and the rows
    pushed so far. *)
Fixpoint forPush {A} (fuel i : nat) (body : nat → list A → M A)
    (data : list A) : M (list A) :=
  match fuel with
  | O => ret data
  | S fuel' =>
      bind (body i data) (λ dataPoint, forPush fuel' (S i) body (data ++ [dataPoint]))
  end.

End Random.

Notation "'let*' x ':=' m 'in' k" := (bind m (λ x, k))
  (at level 10, x name, m at level 100, k at level 200, only parsing).

(** ** The series generator of [Chart.jsx] *)

Module ChartJsx.

Section Generator.

Variable rand : nat → Q.
(** [new Date()] and the local time-zone offset. *)
Variables today tz : Z.

Definition rangeMultiplier (timeRange : string) : num :=
  if decide (timeRange = "day") then Fin 0.5
  else if decide (timeRange = "week") then Fin 1
  else if decide (timeRange = "month") then Fin 2
  else Fin 3.

(** [initialValues[company] = Math.random() * 400 + 100] *)
Definition initialValues (companies : list string) : M obj :=
  forEach companies
    (λ company iv,
       let* r := Math_random rand in
       ret (<[company := JNum (add (mul r (Fin 400)) (Fin 100))]> iv))
    ∅.

(** The date of point [i]: [today] moved back by
    [numPoints - i - 1] hours or days. *)
Definition pointDate (timeRange : string) (numPoints i : nat) : Z :=
  let back := (Z.of_nat numPoints - Z.of_nat i - 1)%Z in
  if decide (timeRange = "day")
  then JsDate.setHours tz today (JsDate.getHours tz today - back)
  else JsDate.setDate tz today (JsDate.getDate tz today - back).

(** The body of the inner [companies.forEach] for point [i].  Both
    objects read for [prevValue] hold a number under every entity
    name, so [prevValue + change] is always an addition. *)
Definition companyStep (i : nat) (iv : obj) (data : list obj) (mult : num)
    (company : string) (dataPoint : obj) : M obj :=
  let prevValue :=
    toNum (if (i =? 0)%nat then iv !! company
           else (data !! (i - 1)%nat) ≫= (λ d, d !! company)) in
  let* r := Math_random rand in
  let change := mul (mul prevValue (sub (mul r (Fin 0.1)) (Fin 0.05))) mult in
  let percentChange := mul (div change prevValue) (Fin 100) in
  let dataPoint := <[company := JNum (add prevValue change)]> dataPoint in
  let dataPoint := <[company +:+ "_change" := JNum percentChange]> dataPoint in
  let* r' := Math_random rand in
  ret (<[company +:+ "_volume" :=
           JNum (floor (add (mul r' (Fin 990000)) (Fin 10000)))]> dataPoint).

(** One iteration of the outer loop: the data point of index [i]. *)
Definition point (timeRange : string) (numPoints : nat)
    (companies : list string) (iv : obj) (i : nat) (data : list obj) : M obj :=
  forEach companies
    (companyStep i iv data (rangeMultiplier timeRange))
    {["date" := JIso (pointDate timeRange numPoints i)]}.

Definition generateStockData (numPoints : nat) (companies : list string)
    (timeRange : string) : list obj :=
  fst ((let* iv := initialValues companies in
        forPush numPoints 0 (point timeRange numPoints companies iv) []) O).

End Generator.

End ChartJsx.

(** ** The series generator of [lib/data-generator.js] *)

Module DataGenerator.

Section Generator.

Variable rand : nat → Q.
Variables today tz : Z.

Definition initialValues (companies : list string) : M obj :=
  forEach companies
    (λ company iv,
       let* r := Math_random rand in
       ret (<[company := JNum (add (mul r (Fin 400)) (Fin 100))]> iv))
    ∅.

Definition pointDate (numPoints i : nat) : Z :=
  let back := (Z.of_nat numPoints - Z.of_nat i - 1)%Z in
  JsDate.setDate tz today (JsDate.getDate tz today - back).

Definition companyStep (i : nat) (iv : obj) (data : list obj)
    (company : string) (dataPoint : obj) : M obj :=
  let prevValue :=
    toNum (if (i =? 0)%nat then iv !! company
           else (data !! (i - 1)%nat) ≫= (λ d, d !! company)) in
  let* r := Math_random rand in
  let change := mul prevValue (sub (mul r (Fin 0.1)) (Fin 0.05)) in
  ret (<[company := JNum (add prevValue change)]> dataPoint).

Definition point (numPoints : nat) (companies : list string) (iv : obj)
    (i : nat) (data : list obj) : M obj :=
  forEach companies (companyStep i iv data)
    {["date" := JIso (pointDate numPoints i)]}.

Definition generateStockData (numPoints : nat) (companies : list string)
    : list obj :=
  fst ((let* iv := initialValues companies in
        forPush numPoints 0 (point numPoints companies iv) []) O).

End Generator.

End DataGenerator.

(** ** Scale Engine: the y domain of [Chart.jsx] *)

(** [data.filter((d) => { const date = new Date(d.date);
                         return date instanceof Date && !isNaN(date); })] *)
Definition validData (data : list obj) : list obj :=
  filter (λ d, is_Some (newDate (d !! "date"))) data.

(** [validData.flatMap((d) =>
       visibleCompanies.map((company) => d[key(company)])
                       .filter((v) => !isNaN(v)))],
    then spread as numeric arguments. *)
Definition metricValues (key : string → string) (validData : list obj)
    (visibleCompanies : list string) : list num :=
  validData ≫= (λ d,
    toNum <$> filter (λ v, js_isNaN v = false)
                ((λ company, d !! key company) <$> visibleCompanies)).

Definition priceKey (company : string) : string := company.
Definition volumeKey (company : string) : string := company +:+ "_volume".
Definition changeKey (company : string) : string := company +:+ "_change".

Definition yDomain (data : list obj) (visibleCompanies : list string)
    (filteredMetric : string) : num * num :=
  let validData := validData data in
  if decide (filteredMetric = "price") then
    let values := metricValues priceKey validData visibleCompanies in
    (mul (Math_min values) (Fin 0.9), mul (Math_max values) (Fin 1.1))
  else if decide (filteredMetric = "volume") then
    let values := metricValues volumeKey validData visibleCompanies in
    (Fin 0, mul (Math_max values) (Fin 1.1))
  else
    let values := metricValues changeKey validData visibleCompanies in
    let absMax := Math_max [abs (Math_min values); abs (Math_max values)] in
    (neg absMax, absMax).

(** ** d3 scales and the zoom behaviour *)

Module D3.

(** A continuous scale with a two-point domain and range.  d3 scales are
    mutable objects ([scale.domain(d)] rewrites the receiver), so they
    live in a store and the program holds their locations. *)
Record scale : Type := Scale { domain : num * num; range : num * num }.

Abbreviation loc := nat.
Abbreviation store := (list scale).

(** JavaScript truthiness of a number. *)
Definition truthy (x : num) : bool :=
  match x with
  | NaN => false
  | Fin q => negb (Qeq_bool q 0)
  | _ => true
  end.

(** [normalize(a, b)]:
    [(b -= a) ? x => (x - a) / b : constant(isNaN(b) ? NaN : 0.5)] *)
Definition normalize (a b x : num) : num :=
  let b' := sub b a in
  if truthy b' then div (sub x a) b'
  else if isNaN b' then NaN else Fin 0.5.

(** [interpolateNumber(a, b)]: [t => a * (1 - t) + b * t] *)
Definition interpolateNumber (a b t : num) : num :=
  add (mul a (sub (Fin 1) t)) (mul b t).

(** [bimap(domain, range, interpolate)] *)
Definition bimap (d r : num * num) (x : num) : num :=
  if ltb (snd d) (fst d)
  then interpolateNumber (snd r) (fst r) (normalize (snd d) (fst d) x)
  else interpolateNumber (fst r) (snd r) (normalize (fst d) (snd d) x).

(** [scale(v)] and [scale.invert(p)] *)
Definition apply (s : scale) (v : num) : num := bimap (domain s) (range s) v.
Definition invert (s : scale) (p : num) : num := bimap (range s) (domain s) p.

(** [d3.scaleLinear().domain(d).range(r)]: a fresh scale object. *)
Definition newScale (d r : num * num) (σ : store) : loc * store :=
  (length σ, σ ++ [Scale d r]).

(** [s.copy()]: a fresh object with the receiver's domain and range. *)
Definition copy (l : loc) (σ : store) : option (loc * store) :=
  s ← σ !! l; Some (length σ, σ ++ [s]).

(** [s.domain(d)]: rewrites the receiver. *)
Definition setDomain (l : loc) (d : num * num) (σ : store) : store :=
  alter (λ s, Scale d (range s)) l σ.

(** The zoom transform [{k, x, y}]. *)
Record transform : Type := Transform { k : Q; tx : Q; ty : Q }.

Definition zoomIdentity : transform := Transform 1 0 0.

Definition invertX (t : transform) (x : num) : num :=
  div (sub x (Fin (tx t))) (Fin (k t)).
Definition invertY (t : transform) (y : num) : num :=
  div (sub y (Fin (ty t))) (Fin (k t)).

(** [transform.rescaleX(x)]:
    [x.copy().domain(x.range().map(this.invertX, this).map(x.invert, x))] *)
Definition rescaleX (t : transform) (x : loc) (σ : store) : option (loc * store) :=
  s ← σ !! x;
  '(c, σ') ← copy x σ;
  let d := (invert s (invertX t (fst (range s))),
            invert s (invertX t (snd (range s)))) in
  Some (c, setDomain c d σ').

Definition rescaleY (t : transform) (y : loc) (σ : store) : option (loc * store) :=
  s ← σ !! y;
  '(c, σ') ← copy y σ;
  let d := (invert s (invertY t (fst (range s))),
            invert s (invertY t (snd (range s)))) in
  Some (c, setDomain c d σ').

(** [Math.max(scaleExtent[0], Math.min(scaleExtent[1], k))], the clamp
    every interactive change of scale goes through. *)
Definition clampScale (scaleExtent : Q * Q) (k : Q) : Q :=
  Qmax (fst scaleExtent) (Qmin (snd scaleExtent) k).

End D3.

(** ** Transform Controller *)

(** The three chart components of the repository. *)
Inductive variant : Type :=
  | ChartComponent      (* components/Chart.jsx *)
  | DashboardChart      (* the Chart of the dashboard *)
  | StockChart.         (* the stand-alone StockChart *)

(** The argument of [.scaleExtent(...)] in each component. *)
Definition scaleExtent (v : variant) : Q * Q :=
  match v with
  | ChartComponent => (0.5, 20)
  | DashboardChart => (0.8, 4)
  | StockChart => (1, 5)
  end.

(** What the user can do to the zoom.  The translation that the
    behaviour settles on (pointer position, translate extent) is part of
    the gesture; its scale is computed here. *)
Inductive gesture : Type :=
  | Wheel (factor : Q) (tx ty : Q)      (* [factor] is [2 ^ wheelDelta] *)
  | DblClick (shift : bool) (tx ty : Q)
  | Drag (tx ty : Q)
  | ResetButton.

(** The transform the behaviour holds after a gesture.  [Chart.jsx]
    rebinds [dblclick.zoom] to a reset; the dashboard has a reset
    button; resets set [d3.zoomIdentity] through [zoom.transform]. *)
Definition zoomStep (v : variant) (t : D3.transform) (g : gesture) : D3.transform :=
  match g with
  | Wheel factor x y =>
      D3.Transform (D3.clampScale (scaleExtent v) (D3.k t * factor)) x y
  | DblClick shift x y =>
      match v with
      | ChartComponent => D3.zoomIdentity
      | _ => D3.Transform
               (D3.clampScale (scaleExtent v)
                  (D3.k t * (if shift then 0.5 else 2))) x y
      end
  | Drag x y => D3.Transform (D3.k t) x y
  | ResetButton =>
      match v with
      | DashboardChart => D3.zoomIdentity
      | _ => t
      end
  end.

(** Transforms reachable from the identity. *)
Inductive reachable (v : variant) : D3.transform → Prop :=
  | reach_identity : reachable v D3.zoomIdentity
  | reach_step t g : reachable v t → reachable v (zoomStep v t g).

(** ** The zoom listeners *)

(** What is on screen that a zoom listener redraws. *)
Record scene : Type := Scene {
  xAxis : option D3.scale;        (* the scale the x axis was drawn from *)
  yAxis : option D3.scale;
  xGrid : option D3.scale;
  yGrid : option D3.scale;
  chartGroup : option D3.transform;  (* the transform attribute *)
  lines : list (string * list (num * num))
}.

(** A rendered chart: the scale objects, the bindings [x] and [y] the
    render effect closed over, and the scene. *)
Record chart : Type := Chart {
  scales : D3.store;
  x : D3.loc;
  y : D3.loc;
  drawn : scene
}.

(** [new Date(v)] used as a number. *)
Definition dateNum (v : option jsval) : num :=
  match newDate v with
  | Some t => Fin (inject_Z t)
  | None => NaN
  end.

Section Listeners.

(** The [data] and [visibleCompanies] the render effect closed over. *)
Variable data : list obj.
Variable visibleCompanies : list string.

(** [Chart.jsx]: both axes from rescaled copies, the transform on the
    chart group; the [.x-grid]/[.y-grid] selections are empty there. *)
Definition onZoomChart (c : chart) (t : D3.transform) : chart :=
  match D3.rescaleX t (x c) (scales c) with
  | None => c
  | Some (newX, σ1) =>
      match D3.rescaleY t (y c) σ1 with
      | None => c
      | Some (newY, σ2) =>
          Chart σ2 (x c) (y c)
            (Scene (σ2 !! newX) (σ2 !! newY)
               (xGrid (drawn c)) (yGrid (drawn c)) (Some t) (lines (drawn c)))
      end
  end.

(** The dashboard's chart: as above, and the grid lines. *)
Definition onZoomDashboard (c : chart) (t : D3.transform) : chart :=
  match D3.rescaleX t (x c) (scales c) with
  | None => c
  | Some (newX, σ1) =>
      match D3.rescaleY t (y c) σ1 with
      | None => c
      | Some (newY, σ2) =>
          Chart σ2 (x c) (y c)
            (Scene (σ2 !! newX) (σ2 !! newY) (σ2 !! newX) (σ2 !! newY)
               (Some t) (lines (drawn c)))
      end
  end.

(** [StockChart]: the x axis from a rescaled copy, and every visible
    line redrawn through [newX] and the original [y]. *)
Definition onZoomStockChart (c : chart) (t : D3.transform) : chart :=
  match D3.rescaleX t (x c) (scales c) with
  | None => c
  | Some (newX, σ1) =>
      match σ1 !! newX, σ1 !! y c with
      | Some sx, Some sy =>
          Chart σ1 (x c) (y c)
            (Scene (Some sx) (yAxis (drawn c)) (xGrid (drawn c)) (yGrid (drawn c))
               (chartGroup (drawn c))
               ((λ company,
                   (company,
                    (λ d, (D3.apply sx (dateNum (d !! "date")),
                           D3.apply sy (toNum (d !! company)))) <$> data))
                  <$> visibleCompanies))
      | _, _ => c
      end
  end.

Definition onZoom (v : variant) : chart → D3.transform → chart :=
  match v with
  | ChartComponent => onZoomChart
  | DashboardChart => onZoomDashboard
  | StockChart => onZoomStockChart
  end.

End Listeners.

(** ** Scale Engine: the scale pair *)

(** [d3.extent] of the time values of the valid rows. *)
Definition extent (ts : list Z) : num * num :=
  match ts with
  | [] => (NaN, NaN)
  | t :: ts' =>
      (Fin (inject_Z (foldl Z.min t ts')), Fin (inject_Z (foldl Z.max t ts')))
  end.

(** The scale pair the render effect of [Chart.jsx] builds, on an empty
    store: [x] over the extent of the dates, [y] over [yDomain]. *)
Definition renderScales (data : list obj) (visibleCompanies : list string)
    (filteredMetric : string) (width height : Q) : chart :=
  let vd := validData data in
  let '(x, σ) :=
    D3.newScale (extent (omap (λ d, newDate (d !! "date")) vd))
      (Fin 0, Fin width) [] in
  let '(y, σ) :=
    D3.newScale (yDomain data visibleCompanies filteredMetric)
      (Fin height, Fin 0) σ in
  Chart σ x y (Scene (σ !! x) (σ !! y) (σ !! x) (σ !! y) None []).

(** ** Tooltip: [formatValue] *)

Module Tooltip.

Definition digitChar (d : Z) : ascii := ascii_of_nat (48 + Z.to_nat d).

(** The decimal digits of [n > 0], most significant first. *)
Fixpoint digitsFrom (fuel : nat) (n : Z) (acc : list ascii) : list ascii :=
  match fuel with
  | O => acc
  | S fuel' =>
      let acc' := digitChar (n mod 10) :: acc in
      if (n <? 10)%Z then acc' else digitsFrom fuel' (n / 10) acc'
  end.

Definition decimalDigits (n : Z) : list ascii :=
  digitsFrom (S (Z.to_nat (Z.log2 n))) n [].

Section Format.

(** [Number::toString] for values of at least [10^21], and
    [new Intl.NumberFormat("en-US", { notation: "compact" }).format]:
    both belong to the JavaScript runtime. *)
Variable NumberToString : Q → string.
Variable compactFormat : num → string.

(** [Number.prototype.toFixed(f)], steps as in ECMAScript: non-finite
    values print by name; the sign is split off; [n] is the integer
    nearest to [x * 10^f], the larger one on a tie; its digits are
    padded with zeros to [f + 1] and the point goes before the last
    [f]. *)
Definition toFixed (f : nat) (value : num) : string :=
  match value with
  | NaN => "NaN"
  | PosInf => "Infinity"
  | NegInf => "-Infinity"
  | Fin q =>
      let s := if Qle_bool 0 q then "" else "-" in
      let x := Qabs q in
      if Qle_bool (inject_Z (10 ^ 21)) x then s +:+ NumberToString x
      else
        let n := Qfloor (x * inject_Z (10 ^ Z.of_nat f) + 0.5) in
        let m := if (n =? 0)%Z then ["0"%char] else decimalDigits n in
        let m :=
          if (f =? 0)%nat then m
          else
            let m := if (length m <=? f)%nat
                     then replicate (f + 1 - length m) "0"%char ++ m
                     else m in
            let k := length m in
            take (k - f) m ++ "."%char :: drop (k - f) m in
        s +:+ string_of_list_ascii m
  end.

(** [formatValue] of [Tooltip.jsx]. *)
Definition formatValue (value : num) (metric : string) : string :=
  if decide (metric = "price") then "$" +:+ toFixed 2 value
  else if decide (metric = "volume") then compactFormat value
  else toFixed 1 value +:+ "%".

End Format.

End Tooltip.

(** ** Render Pipeline: the points of one entity *)

(** [metricKey] of the per-entity pass of [Chart.jsx]. *)
Definition metricKey (filteredMetric company : string) : string :=
  if decide (filteredMetric = "price") then company
  else if decide (filteredMetric = "volume") then company +:+ "_volume"
  else company +:+ "_change".

(** [validData.map((d) => ({ date: new Date(d.date), value: d[metricKey] }))
             .filter((d) => !isNaN(d.value))]:
    the points drawn for one entity, as time value and value. *)
Definition companyData (validData : list obj) (metricKey : string)
    : list (option Z * option jsval) :=
  filter (λ pt, js_isNaN pt.2 = false)
    ((λ d, (newDate (d !! "date"), d !! metricKey)) <$> validData).

(** ** View configuration: the dashboard and the controls *)

(** The state the dashboard holds and hands to the chart. *)
Record viewState : Type := ViewState {
  chartType : string;
  timeRange : string;
  filteredMetric : string;
  darkMode : bool
}.

(** The [useState] defaults of [Dashboard]. *)
Definition initialViewState : viewState :=
  ViewState "line" "month" "price" false.

(** [param && allowed.includes(param)], where [params.get] gave [param]
    ([null] when the parameter is absent). *)
Definition accepted (allowed : list string) (param : option string) : bool :=
  match param with
  | Some p => negb (String.eqb p "") && bool_decide (p ∈ allowed)
  | None => false
  end.

(** The effect of [Dashboard] that reads the URL; [get] is
    [URLSearchParams.get] on [window.location.search]. *)
Definition parseUrlParams (get : string → option string) (v : viewState)
    : viewState :=
  let typeParam := get "chartType" in
  let rangeParam := get "timeRange" in
  let metricParam := get "metric" in
  let v := if accepted ["line"; "bar"] typeParam
           then ViewState (default "" typeParam) (timeRange v)
                  (filteredMetric v) (darkMode v)
           else v in
  let v := if accepted ["day"; "week"; "month"] rangeParam
           then ViewState (chartType v) (default "" rangeParam)
                  (filteredMetric v) (darkMode v)
           else v in
  if accepted ["price"; "volume"; "change"] metricParam
  then ViewState (chartType v) (timeRange v) (default "" metricParam)
         (darkMode v)
  else v.

(** The buttons and the switch of [ChartControls]. *)
Inductive control : Type :=
  | LineButton | BarButton
  | PriceButton | VolumeButton | ChangeButton
  | DayButton | WeekButton | MonthButton
  | DarkModeSwitch (checked : bool).

(** Their [onClick] handlers: [setChartType("line")],
    [handleFilterChange("price")], [setTimeRange("day")], ... *)
Definition press (b : control) (v : viewState) : viewState :=
  match b with
  | LineButton => ViewState "line" (timeRange v) (filteredMetric v) (darkMode v)
  | BarButton => ViewState "bar" (timeRange v) (filteredMetric v) (darkMode v)
  | PriceButton => ViewState (chartType v) (timeRange v) "price" (darkMode v)
  | VolumeButton => ViewState (chartType v) (timeRange v) "volume" (darkMode v)
  | ChangeButton => ViewState (chartType v) (timeRange v) "change" (darkMode v)
  | DayButton => ViewState (chartType v) "day" (filteredMetric v) (darkMode v)
  | WeekButton => ViewState (chartType v) "week" (filteredMetric v) (darkMode v)
  | MonthButton => ViewState (chartType v) "month" (filteredMetric v) (darkMode v)
  | DarkModeSwitch checked =>
      ViewState (chartType v) (timeRange v) (filteredMetric v) checked
  end.

(** View states the dashboard can be in: the defaults, then the URL
    effect and the controls in any order. *)
Inductive viewReachable : viewState → Prop :=
  | view_initial : viewReachable initialViewState
  | view_url get v : viewReachable v → viewReachable (parseUrlParams get v)
  | view_press b v : viewReachable v → viewReachable (press b v).

(** [COMPANY_COLORS] and [getCompanyColor] of [ChartControls]. *)
Definition COMPANY_COLORS : list string :=
  ["#1f77b4"; "#ff7f0e"; "#2ca02c"; "#d62728"; "#9467bd"].

(** [companies.indexOf(company)]: the first position, or -1. *)
Definition indexOf (company : string) (companies : list string) : Z :=
  match list_find (λ c, c = company) companies with
  | Some (i, _) => Z.of_nat i
  | None => (-1)%Z
  end.

(** [COMPANY_COLORS[index] || "#666666"] *)
Definition getCompanyColor (companies : list string) (company : string) : string :=
  let index := indexOf company companies in
  let color := if (index <? 0)%Z then None
               else COMPANY_COLORS !! Z.to_nat index in
  match color with
  | Some color => if String.eqb color "" then "#666666" else color
  | None => "#666666"
  end.

(** The colour class of the value in [Tooltip.jsx]. *)
Definition valueClass (metric : string) (value : num) : string :=
  if decide (metric = "change")
  then (if ltb (Fin 0) value then "text-green-500"
        else if ltb value (Fin 0) then "text-red-500"
        else "")
  else "".

(** ** Render Pipeline: bar geometry *)

(** A length or an index used as a number. *)
Definition ofNat (n : nat) : num := Fin (inject_Z (Z.of_nat n)).


(** [Math.max(5, (width / validData.length / visibleCompanies.length) * 0.8)]
    in the dashboard chart. *)
Definition dashboardBarWidth (width : num) (validLength visibleLength : nat)
    : num :=
  Math_max [Fin 5;
            mul (div (div width (ofNat validLength)) (ofNat visibleLength))
              (Fin 0.8)].




(** * Vocabulary of the statements *)

(** A lower (upper) bound of a list that belongs to it. *)
Definition least (m : num) (l : list num) : Prop :=
  m ∈ l ∧ ∀ v, v ∈ l → le m v.
Definition greatest (m : num) (l : list num) : Prop :=
  m ∈ l ∧ ∀ v, v ∈ l → le v m.




(** The price of entity [c] in row [i]. *)
Definition priceAt (data : list obj) (i : nat) (c : string) : option jsval :=
  data !! i ≫= (λ d, d !! c).

(** [prevValue] of the inner loop body. *)
Definition prevValue (iv : obj) (data : list obj) (i : nat) (c : string) : num :=
  toNum (if (i =? 0)%nat then iv !! c
         else (data !! (i - 1)%nat) ≫= (λ d, d !! c)).



(** How many scale objects one zoom event allocates. *)
Definition copiesPerZoom (v : variant) : nat :=
  match v with StockChart => 1%nat | _ => 2%nat end.

(** [σ'] extends [σ] by [k] objects and leaves the old ones alone. *)
Definition extends (k : nat) (σ σ' : D3.store) : Prop :=
  length σ' = (length σ + k)%nat
  ∧ ∀ l, (l < length σ)%nat → σ' !! l = σ !! l.

(** Reading decimal digits back, most significant first. *)
Definition digitValue (a : ascii) : Z := (Z.of_nat (nat_of_ascii a) - 48)%Z.

Definition isDigit (a : ascii) : Prop := (0 ≤ digitValue a ≤ 9)%Z.

Fixpoint digitsValue (acc : Z) (l : list ascii) : Z :=
  match l with
  | [] => acc
  | a :: l' => digitsValue (10 * acc + digitValue a) l'
  end.

(** [s] is a decimal numeral with exactly [f] digits after the point
    whose value is [x] rounded to [f] decimals. *)
Definition fixedDecimal (f : nat) (x : Q) (s : string) : Prop :=
  ∃ ip fp : list ascii,
    s = string_of_list_ascii (ip ++ "."%char :: fp)
    ∧ ip ≠ [] ∧ length fp = f ∧ Forall isDigit (ip ++ fp)
    ∧ Qabs (inject_Z (digitsValue 0 (ip ++ fp)) - x * inject_Z (10 ^ Z.of_nat f))
      <= 0.5.

(** The sign [toFixed] prints. *)
Definition signOf (q : Q) : string := if Qle_bool 0 q then "" else "-".



(** The scale [transform.rescaleX(x)] returns, as a value. *)
Definition rescaledX (t : D3.transform) (s : D3.scale) : D3.scale :=
  D3.Scale (D3.invert s (D3.invertX t (fst (D3.range s))),
            D3.invert s (D3.invertX t (snd (D3.range s))))
    (D3.range s).
Definition rescaledY (t : D3.transform) (s : D3.scale) : D3.scale :=
  D3.Scale (D3.invert s (D3.invertY t (fst (D3.range s))),
            D3.invert s (D3.invertY t (snd (D3.range s))))
    (D3.range s).




(** A view state whose three choices are among the values the chart
    knows. *)
Definition validView (v : viewState) : Prop :=
  chartType v ∈ ["line"; "bar"]
  ∧ timeRange v ∈ ["day"; "week"; "month"]
  ∧ filteredMetric v ∈ ["price"; "volume"; "change"].

(** The scene one zoom event leaves, from the two static scales and
    the scene before. *)
Definition zoomScene (data : list obj) (visible : list string) (v : variant)
    (sx sy : D3.scale) (prev : scene) (t : D3.transform) : scene :=
  match v with
  | ChartComponent =>
      Scene (Some (rescaledX t sx)) (Some (rescaledY t sy))
        (xGrid prev) (yGrid prev) (Some t) (lines prev)
  | DashboardChart =>
      Scene (Some (rescaledX t sx)) (Some (rescaledY t sy))
        (Some (rescaledX t sx)) (Some (rescaledY t sy)) (Some t) (lines prev)
  | StockChart =>
      Scene (Some (rescaledX t sx)) (yAxis prev) (xGrid prev) (yGrid prev)
        (chartGroup prev)
        ((λ company,
            (company,
             (λ d, (D3.apply (rescaledX t sx) (dateNum (d !! "date")),
                    D3.apply sy (toNum (d !! company)))) <$> data))
           <$> visible)
  end.

(** * Properties *)

(** Closed goals about concrete data are decided by evaluation. *)
Ltac by_eval := apply (bool_decide_unpack _); by vm_compute.

(** ** Order facts on [num] *)

Lemma le_refl_num x : isNaN x = false → le x x.
Proof. destruct x; simpl; try done. intros _. apply Qle_refl. Qed.

Lemma le_trans_num x y z : le x y → le y z → le x z.
Proof. destruct x, y, z; simpl; try tauto. apply Qle_trans. Qed.

Lemma le_not_NaN x y : le x y → isNaN x = false ∧ isNaN y = false.
Proof. destruct x, y; simpl; tauto. Qed.

Lemma ltb_true_le x y : ltb x y = true → le x y.
Proof.
  destruct x, y; simpl; try done.
  rewrite negb_true_iff. intros H.
  destruct (Qlt_le_dec q q0) as [Hlt|Hle]; [by apply Qlt_le_weak|].
  apply Qle_bool_iff in Hle. congruence.
Qed.

Lemma ltb_false_le x y :
  isNaN x = false → isNaN y = false → ltb x y = false → le y x.
Proof.
  destruct x, y; simpl; try done.
  intros _ _. rewrite negb_false_iff. apply Qle_bool_iff.
Qed.

Lemma abs_not_NaN x : isNaN x = false → isNaN (abs x) = false.
Proof. by destruct x. Qed.

Lemma abs_between lo v hi :
  le lo v → le v hi →
  le (abs v) (if ltb (abs lo) (abs hi) then abs hi else abs lo).
Proof.
  destruct lo as [| |a|], v as [| |b|], hi as [| |c|]; simpl; try tauto.
  intros Hab Hbc.
  destruct (Qle_bool (Qabs c) (Qabs a)) eqn:Hc; simpl.
  - apply Qle_bool_iff in Hc. revert Hc.
    apply Qabs_case; apply Qabs_case; apply Qabs_case; intros; lra.
  - assert (Hlt : Qabs a < Qabs c).
    { apply Qnot_le_lt. intros H. apply Qle_bool_iff in H. congruence. }
    revert Hlt.
    apply Qabs_case; apply Qabs_case; apply Qabs_case; intros; lra.
Qed.

Lemma max_from_spec l : ∀ h,
  isNaN h = false → Forall (λ v, isNaN v = false) l →
  (max_from h l = h ∨ max_from h l ∈ l)
  ∧ le h (max_from h l)
  ∧ ∀ v, v ∈ l → le v (max_from h l).
Proof.
  induction l as [|a l IH]; intros h Hh Hl; simpl.
  - split; [by left|]. split; [by apply le_refl_num|]. intros v Hv. by inversion Hv.
  - inversion Hl as [|? ? Ha Hl']; subst. rewrite Ha.
    destruct (ltb h a) eqn:Hlt.
    + destruct (IH a Ha Hl') as (Hin & Hle & Hub).
      split; [|split].
      * right. destruct Hin as [->|Hin]; [by left | by right].
      * apply (le_trans_num _ a); [by apply ltb_true_le | done].
      * intros v Hv. apply elem_of_cons in Hv as [->|Hv]; auto.
    + destruct (IH h Hh Hl') as (Hin & Hle & Hub).
      split; [|split].
      * destruct Hin as [->|Hin]; [by left | right; by right].
      * done.
      * intros v Hv. apply elem_of_cons in Hv as [->|Hv]; auto.
        apply (le_trans_num _ h); [by apply ltb_false_le | done].
Qed.

Lemma min_from_spec l : ∀ h,
  isNaN h = false → Forall (λ v, isNaN v = false) l →
  (min_from h l = h ∨ min_from h l ∈ l)
  ∧ le (min_from h l) h
  ∧ ∀ v, v ∈ l → le (min_from h l) v.
Proof.
  induction l as [|a l IH]; intros h Hh Hl; simpl.
  - split; [by left|]. split; [by apply le_refl_num|]. intros v Hv. by inversion Hv.
  - inversion Hl as [|? ? Ha Hl']; subst. rewrite Ha.
    destruct (ltb a h) eqn:Hlt.
    + destruct (IH a Ha Hl') as (Hin & Hle & Hub).
      split; [|split].
      * right. destruct Hin as [->|Hin]; [by left | by right].
      * apply (le_trans_num _ a); [done | by apply ltb_true_le].
      * intros v Hv. apply elem_of_cons in Hv as [->|Hv]; auto.
    + destruct (IH h Hh Hl') as (Hin & Hle & Hub).
      split; [|split].
      * destruct Hin as [->|Hin]; [by left | right; by right].
      * done.
      * intros v Hv. apply elem_of_cons in Hv as [->|Hv]; auto.
        apply (le_trans_num _ h); [done | by apply ltb_false_le].
Qed.

Lemma Math_max_greatest l :
  Forall (λ v, isNaN v = false) l → l ≠ [] → greatest (Math_max l) l.
Proof.
  intros Hl Hne. unfold Math_max.
  destruct l as [|a l]; [done|]. clear Hne.
  inversion Hl as [|? ? Ha Hl']; subst.
  change (max_from NegInf (a :: l))
    with (if isNaN a then NaN else max_from (if ltb NegInf a then a else NegInf) l).
  rewrite Ha.
  assert (Hlt : ltb NegInf a = true ∨ a = NegInf) by (destruct a; auto).
  destruct Hlt as [->| ->].
  - destruct (max_from_spec l a Ha Hl') as (Hin & Hle & Hub). split.
    + destruct Hin as [->|Hin]; [by left | by right].
    + intros v Hv. apply elem_of_cons in Hv as [->|Hv]; auto.
  - simpl. destruct (max_from_spec l NegInf Ha Hl') as (Hin & Hle & Hub). split.
    + destruct Hin as [->|Hin]; [by left | by right].
    + intros v Hv. apply elem_of_cons in Hv as [->|Hv]; auto.
Qed.

Lemma Math_min_least l :
  Forall (λ v, isNaN v = false) l → l ≠ [] → least (Math_min l) l.
Proof.
  intros Hl Hne. unfold Math_min.
  destruct l as [|a l]; [done|]. clear Hne.
  inversion Hl as [|? ? Ha Hl']; subst.
  change (min_from PosInf (a :: l))
    with (if isNaN a then NaN else min_from (if ltb a PosInf then a else PosInf) l).
  rewrite Ha.
  assert (Hlt : ltb a PosInf = true ∨ a = PosInf) by (destruct a; auto).
  destruct Hlt as [->| ->].
  - destruct (min_from_spec l a Ha Hl') as (Hin & Hle & Hub). split.
    + destruct Hin as [->|Hin]; [by left | by right].
    + intros v Hv. apply elem_of_cons in Hv as [->|Hv]; auto.
  - simpl. destruct (min_from_spec l PosInf Ha Hl') as (Hin & Hle & Hub). split.
    + destruct Hin as [->|Hin]; [by left | by right].
    + intros v Hv. apply elem_of_cons in Hv as [->|Hv]; auto.
Qed.

(** ** Visible entities *)

Lemma toggle_off c (l : list string) :
  c ∈ l → toggleCompany c l = filter (λ e, e ≠ c) l.
Proof.
  intros Hin. unfold toggleCompany. by rewrite bool_decide_eq_true_2.
Qed.

Lemma toggle_on c (l : list string) :
  c ∉ l → toggleCompany c l = l ++ [c].
Proof.
  intros Hin. unfold toggleCompany. by rewrite bool_decide_eq_false_2.
Qed.

Lemma filter_others_id c (l : list string) :
  c ∉ l → filter (λ e, e ≠ c) l = l.
Proof.
  induction l as [|a l IH]; [done|].
  rewrite not_elem_of_cons. intros [Hne Hl].
  rewrite filter_cons_True by done. by rewrite IH.
Qed.

(** C6, as the code has it: switching a visible entity off and on again
    keeps the other entities in their relative order and puts the
    entity back at the end of the list; the visible set is the same as
    before, and the list is the same exactly when the entity stood last
    and occurred once. *)
Theorem toggle_off_on c (l : list string) :
  c ∈ l →
  let l' := toggleCompany c (toggleCompany c l) in
  l' = filter (λ e, e ≠ c) l ++ [c]
  ∧ (∀ e, e ∈ l' ↔ e ∈ l)
  ∧ filter (λ e, e ≠ c) l' = filter (λ e, e ≠ c) l
  ∧ (l' = l ↔ ∃ l0, l = l0 ++ [c] ∧ c ∉ l0).
Proof.
  intros Hin l'.
  assert (Hout : c ∉ filter (λ e, e ≠ c) l).
  { rewrite list_elem_of_filter. tauto. }
  assert (Hl' : l' = filter (λ e, e ≠ c) l ++ [c]).
  { unfold l'. rewrite (toggle_off c l Hin). by apply toggle_on. }
  split; [done|]. rewrite Hl'. split; [|split].
  - intros e. rewrite elem_of_app, list_elem_of_filter, list_elem_of_singleton.
    destruct (decide (e = c)) as [->|Hne]; tauto.
  - rewrite filter_app, filter_cons_False, filter_nil, app_nil_r by tauto.
    by apply filter_others_id.
  - split.
    + intros Heq. exists (filter (λ e, e ≠ c) l). by split.
    + intros (l0 & -> & Hl0).
      rewrite filter_app, filter_cons_False, filter_nil, app_nil_r by tauto.
      by rewrite filter_others_id.
Qed.

Lemma toggle_off_on_witness :
  "B" ∈ ["A"; "B"; "C"]
  ∧ toggleCompany "B" (toggleCompany "B" ["A"; "B"; "C"]) = ["A"; "C"; "B"].
Proof.
  assert (Hin : "B" ∈ ["A"; "B"; "C"]) by by_eval.
  split; [done|].
  exact (proj1 (toggle_off_on "B" ["A"; "B"; "C"] Hin)).
Defined.

(** C6 as stated fails: an entity that is not last comes back in a
    different position. *)
Lemma toggle_off_on_moves :
  "A" ∈ ["A"; "B"]
  ∧ toggleCompany "A" (toggleCompany "A" ["A"; "B"]) = ["B"; "A"]
  ∧ toggleCompany "A" (toggleCompany "A" ["A"; "B"]) ≠ ["A"; "B"].
Proof.
  split; [by_eval|]. split; [reflexivity|]. by vm_compute.
Qed.

(** ** Scale Engine *)

Lemma bind_nil_const {A B} (l : list A) : l ≫= (λ _, @nil B) = [].
Proof. induction l as [|a l IH]; [done|]. by rewrite bind_cons, IH. Qed.

Lemma metricValues_hidden key (vd : list obj) : metricValues key vd [] = [].
Proof. unfold metricValues. simpl. apply bind_nil_const. Qed.

(** C1, as the code has it: with no visible entity the value list is
    empty whatever the dataset, [Math.min()] is [Infinity] and
    [Math.max()] is [-Infinity], and the y domain is
    [[Infinity, -Infinity]] for price, [[0, -Infinity]] for volume and
    [[-Infinity, Infinity]] for any other metric.  No endpoint is
    [NaN]; there is no fallback to [[0, 1]]. *)
Theorem yDomain_all_hidden (data : list obj) (filteredMetric : string) :
  yDomain data [] filteredMetric =
    if decide (filteredMetric = "price") then (PosInf, NegInf)
    else if decide (filteredMetric = "volume") then (Fin 0, NegInf)
    else (NegInf, PosInf).
Proof.
  unfold yDomain. rewrite !metricValues_hidden.
  repeat case_decide; reflexivity.
Qed.

(** C1 as stated fails: a dataset with one valid row, metric
    ["volume"], every entity hidden. *)
Lemma yDomain_all_hidden_no_fallback :
  let data : list obj :=
    [ {[ "date" := JIso 1700000000000; "A" := JNum (Fin 120);
         "A_change" := JNum (Fin 1.5); "A_volume" := JNum (Fin 52000) ]} ] in
  validData data = data
  ∧ yDomain data [] "volume" = (Fin 0, NegInf)
  ∧ yDomain data [] "volume" ≠ (Fin 0, Fin 1).
Proof.
  split; [by vm_compute|]. split; [by vm_compute|]. by vm_compute.
Qed.

(** ** Transform Controller *)

Lemma clampScale_bounds ext k :
  fst ext <= snd ext →
  fst ext <= D3.clampScale ext k <= snd ext.
Proof.
  intros Hext. unfold D3.clampScale. split.
  - apply Q.le_max_l.
  - apply Q.max_lub; [done|]. apply Q.le_min_l.
Qed.

Lemma scaleExtent_ordered v : fst (scaleExtent v) <= snd (scaleExtent v).
Proof. destruct v; simpl; lra. Qed.

Lemma scaleExtent_identity v :
  fst (scaleExtent v) <= D3.k D3.zoomIdentity <= snd (scaleExtent v).
Proof. destruct v; simpl; lra. Qed.

Lemma zoomStep_in_extent v t g :
  fst (scaleExtent v) <= D3.k t <= snd (scaleExtent v) →
  fst (scaleExtent v) <= D3.k (zoomStep v t g) <= snd (scaleExtent v).
Proof.
  intros Ht. destruct g as [factor x y|shift x y|x y|]; simpl.
  - apply clampScale_bounds, scaleExtent_ordered.
  - destruct v; simpl; try lra;
      apply (clampScale_bounds (_, _)); simpl; lra.
  - done.
  - destruct v; simpl in *; lra.
Qed.

(** C7, as the code has it: every component clamps the zoom scale to
    its configured extent, which is [[0.5, 20]] in [Chart.jsx],
    [[0.8, 4]] in the dashboard chart and [[1, 5]] in [StockChart]; no
    reachable transform has [k] outside the extent of its component. *)
Theorem zoom_scale_in_extent (v : variant) :
  (scaleExtent v = (0.5, 20) ∨ scaleExtent v = (0.8, 4) ∨ scaleExtent v = (1, 5))
  ∧ ∀ t, reachable v t →
      fst (scaleExtent v) <= D3.k t <= snd (scaleExtent v).
Proof.
  split.
  - destruct v; simpl; auto.
  - intros t Ht. induction Ht as [|t g Ht IH].
    + apply scaleExtent_identity.
    + by apply zoomStep_in_extent.
Qed.

Lemma zoom_scale_in_extent_witness :
  let t := foldl (zoomStep DashboardChart) D3.zoomIdentity
             [Wheel 2 (-40) (-25); Wheel 8 (-300) (-200); Drag (-310) (-180)] in
  reachable DashboardChart t ∧ 0.8 <= D3.k t <= 4.
Proof.
  intros t.
  assert (Ht : reachable DashboardChart t) by repeat constructor.
  split; [done|].
  exact (proj2 (zoom_scale_in_extent DashboardChart) t Ht).
Defined.

(** C7 as stated fails: the extent of [Chart.jsx] is neither
    [[0.8, 4]] nor [[1, 5]], and four wheel steps that each double the
    scale reach [k = 16] there. *)
Lemma zoom_extent_chart_component :
  let t := foldl (zoomStep ChartComponent) D3.zoomIdentity
             [Wheel 2 0 0; Wheel 2 0 0; Wheel 2 0 0; Wheel 2 0 0] in
  scaleExtent ChartComponent = (0.5, 20)
  ∧ reachable ChartComponent t
  ∧ D3.k t == 16
  ∧ ¬ (0.8 <= D3.k t <= 4)
  ∧ ¬ (1 <= D3.k t <= 5).
Proof.
  split; [reflexivity|]. split; [repeat constructor|].
  split; [by vm_compute|].
  split; intros [_ H]; by vm_compute in H.
Qed.

(** The values that enter the y domain: the entries of the visible
    entities in the valid rows that are numbers. *)
Lemma elem_of_validData d (data : list obj) :
  d ∈ validData data ↔ is_Some (newDate (d !! "date")) ∧ d ∈ data.
Proof.
  exact (list_elem_of_filter (λ d, is_Some (newDate (d !! "date"))) data d).
Qed.

Lemma elem_of_metricValues key (vd : list obj) (visible : list string) v :
  v ∈ metricValues key vd visible ↔
  isNaN v = false ∧ ∃ d c, d ∈ vd ∧ c ∈ visible ∧ toNum (d !! key c) = v.
Proof.
  unfold metricValues. rewrite list_elem_of_bind. split.
  - intros (d & Hv & Hd).
    apply list_elem_of_fmap in Hv as (o & -> & Ho).
    apply list_elem_of_filter in Ho as [Hnan Ho].
    apply list_elem_of_fmap in Ho as (c & -> & Hc).
    split; [done|]. by exists d, c.
  - intros (Hnan & d & c & Hd & Hc & <-).
    exists d. split; [|done].
    apply list_elem_of_fmap. exists (d !! key c). split; [done|].
    apply list_elem_of_filter. split; [done|].
    apply list_elem_of_fmap. by exists c.
Qed.

Lemma metricValues_numbers key (vd : list obj) (visible : list string) :
  Forall (λ v, isNaN v = false) (metricValues key vd visible).
Proof.
  apply Forall_forall. intros v Hv.
  by apply elem_of_metricValues in Hv as [Hv _].
Qed.

(** C3: with at least one visible change value, the y domain for
    metric ["change"] is [[-absMax, absMax]]: the lower end equals
    ([===]) the negated upper end, and the upper end is the largest
    absolute value among the visible change values. *)
Theorem yDomain_change_symmetric (data : list obj) (visible : list string) :
  let values := metricValues changeKey (validData data) visible in
  values ≠ [] →
  let '(lo, hi) := yDomain data visible "change" in
  eqb lo (neg hi) = true ∧ greatest hi (abs <$> values).
Proof.
  intros values Hne. unfold yDomain.
  rewrite decide_False by done. rewrite decide_False by done.
  fold values.
  pose proof (metricValues_numbers changeKey (validData data) visible) as Hnum.
  fold values in Hnum.
  destruct (Math_min_least values Hnum Hne) as [Hmin_in Hmin].
  destruct (Math_max_greatest values Hnum Hne) as [Hmax_in Hmax].
  set (lo := Math_min values) in *. set (hi := Math_max values) in *.
  assert (Hlo : isNaN (abs lo) = false).
  { apply abs_not_NaN. by apply (proj1 (Forall_forall _ _) Hnum). }
  assert (Hhi : isNaN (abs hi) = false).
  { apply abs_not_NaN. by apply (proj1 (Forall_forall _ _) Hnum). }
  assert (Habs : Math_max [abs lo; abs hi]
                 = if ltb (abs lo) (abs hi) then abs hi else abs lo).
  { unfold Math_max. simpl. rewrite Hlo, Hhi. by destruct lo. }
  rewrite Habs. split.
  - destruct (ltb (abs lo) (abs hi)).
    + destruct hi; simpl in *; try done. apply Qeq_bool_iff. reflexivity.
    + destruct lo; simpl in *; try done. apply Qeq_bool_iff. reflexivity.
  - split.
    + destruct (ltb (abs lo) (abs hi)); by apply list_elem_of_fmap_2.
    + intros a Ha. apply list_elem_of_fmap in Ha as (v & -> & Hv).
      apply abs_between; auto.
Qed.

Lemma yDomain_change_symmetric_witness :
  let data : list obj :=
    [ {[ "date" := JIso 1700000000000; "A_change" := JNum (Fin (-3.5));
         "B_change" := JNum (Fin 2) ]};
      {[ "date" := JIso 1700086400000; "A_change" := JNum (Fin 1.25);
         "B_change" := JNum NaN ]} ] in
  let values := metricValues changeKey (validData data) ["A"; "B"] in
  values ≠ []
  ∧ let '(lo, hi) := yDomain data ["A"; "B"] "change" in
    eqb lo (neg hi) = true ∧ greatest hi (abs <$> values).
Proof.
  intros data values. split; [by vm_compute|].
  apply (yDomain_change_symmetric data ["A"; "B"]). by vm_compute.
Defined.

(** C5: the y domain is [[min × 0.9, max × 1.1]] for metric ["price"]
    and [[0, max × 1.1]] for metric ["volume"], where [min] and [max]
    are [Math.min] and [Math.max] of the visible values: the entries of
    the visible entities, in the rows with a valid date, that are not
    [NaN].  Whenever there is such a value, [min] is the least and
    [max] the greatest of them. *)
Theorem yDomain_price_volume (data : list obj) (visible : list string) :
  let prices := metricValues priceKey (validData data) visible in
  let volumes := metricValues volumeKey (validData data) visible in
  (∀ v, v ∈ prices ↔
        isNaN v = false
        ∧ ∃ d c, d ∈ data ∧ is_Some (newDate (d !! "date")) ∧ c ∈ visible
                 ∧ toNum (d !! c) = v)
  ∧ (∀ v, v ∈ volumes ↔
        isNaN v = false
        ∧ ∃ d c, d ∈ data ∧ is_Some (newDate (d !! "date")) ∧ c ∈ visible
                 ∧ toNum (d !! (c +:+ "_volume")) = v)
  ∧ yDomain data visible "price"
    = (mul (Math_min prices) (Fin 0.9), mul (Math_max prices) (Fin 1.1))
  ∧ yDomain data visible "volume"
    = (Fin 0, mul (Math_max volumes) (Fin 1.1))
  ∧ (prices ≠ [] →
     least (Math_min prices) prices ∧ greatest (Math_max prices) prices)
  ∧ (volumes ≠ [] → greatest (Math_max volumes) volumes).
Proof.
  intros prices volumes.
  assert (Hmem : ∀ key v,
    v ∈ metricValues key (validData data) visible ↔
    isNaN v = false
    ∧ ∃ d c, d ∈ data ∧ is_Some (newDate (d !! "date")) ∧ c ∈ visible
             ∧ toNum (d !! key c) = v).
  { intros key v. rewrite elem_of_metricValues. split.
    - intros (Hv & d & c & Hd & Hc & Heq). split; [done|].
      apply elem_of_validData in Hd as [Hvalid Hd]. by exists d, c.
    - intros (Hv & d & c & Hd & Hvalid & Hc & Heq). split; [done|].
      exists d, c. split; [|done]. by apply elem_of_validData. }
  split; [exact (Hmem priceKey)|]. split; [exact (Hmem volumeKey)|].
  split; [reflexivity|]. split; [reflexivity|]. split.
  - intros Hne. split.
    + apply Math_min_least; [apply metricValues_numbers | done].
    + apply Math_max_greatest; [apply metricValues_numbers | done].
  - intros Hne. apply Math_max_greatest; [apply metricValues_numbers | done].
Qed.

Lemma yDomain_price_volume_witness :
  let data : list obj :=
    [ {[ "date" := JIso 1700000000000; "A" := JNum (Fin 120);
         "A_volume" := JNum (Fin 52000); "B" := JNum (Fin 310);
         "B_volume" := JNum (Fin 10500) ]};
      {[ "date" := JIso 1700086400000; "A" := JNum (Fin 100);
         "A_volume" := JNum (Fin 990000); "B" := JNum (Fin 305);
         "B_volume" := JNum (Fin 70000) ]};
      {[ "date" := JNum NaN; "A" := JNum (Fin 1);
         "A_volume" := JNum (Fin 5000000) ]} ] in
  let prices := metricValues priceKey (validData data) ["A"; "B"] in
  let volumes := metricValues volumeKey (validData data) ["A"; "B"] in
  prices = [Fin 120; Fin 310; Fin 100; Fin 305]
  ∧ volumes = [Fin 52000; Fin 10500; Fin 990000; Fin 70000]
  ∧ yDomain data ["A"; "B"] "price" = (Fin (100 * 0.9), Fin (310 * 1.1))
  ∧ yDomain data ["A"; "B"] "volume" = (Fin 0, Fin (990000 * 1.1))
  ∧ least (Math_min prices) prices ∧ greatest (Math_max prices) prices
  ∧ greatest (Math_max volumes) volumes.
Proof.
  intros data prices volumes.
  destruct (yDomain_price_volume data ["A"; "B"])
    as (_ & _ & Hp & Hv & Hpb & Hvb).
  split; [by vm_compute|]. split; [by vm_compute|].
  split; [rewrite Hp; by vm_compute|]. split; [rewrite Hv; by vm_compute|].
  split; [apply Hpb; by vm_compute|]. split; [apply Hpb; by vm_compute|].
  apply Hvb; by vm_compute.
Defined.

(** ** Property names *)

Lemma string_length_app (s1 s2 : string) :
  String.length (s1 +:+ s2) = (String.length s1 + String.length s2)%nat.
Proof. induction s1 as [|a s1 IH]; simpl; [done|]. by rewrite IH. Qed.






(** ** Dates *)



(** ** Loops *)

Section LoopFacts.

Context {A : Type}.


(** The last iteration for [c] establishes [P]; the others keep it. *)
Lemma forEach_last (P : A → Prop) (body : string → A → M A) c l :
  (∀ a s, P (body c a s).1) →
  (∀ e a s, e ∈ l → e ≠ c → P a → P (body e a s).1) →
  ∀ a s, c ∈ l ∨ P a → P (forEach l body a s).1.
Proof.
  intros Hc. induction l as [|e l IH]; intros Hothers a s Ha.
  - destruct Ha as [Ha|Ha]; [by inversion Ha | done].
  - simpl. unfold bind. destruct (body e a s) as [a' s'] eqn:Hstep.
    apply IH.
    + intros e0 a0 s0 He0. apply Hothers. by right.
    + destruct (decide (e = c)) as [->|Hne].
      * right. specialize (Hc a s). by rewrite Hstep in Hc.
      * destruct Ha as [Ha|Ha].
        -- left. apply elem_of_cons in Ha as [Ha|Ha]; [congruence | done].
        -- right. specialize (Hothers e a s (list_elem_of_here _ _) Hne Ha).
           by rewrite Hstep in Hothers.
Qed.

(** The loop pushes [fuel] rows; row [j] is what the body made from the
    [j] rows before it. *)
Lemma forPush_rows (R : nat → list A → A → Prop) (body : nat → list A → M A) fuel :
  (∀ i data s, length data = i → R i data (body i data s).1) →
  ∀ i data s, length data = i →
  let final := (forPush fuel i body data s).1 in
  length final = (i + fuel)%nat
  ∧ take i final = data
  ∧ ∀ j, (i ≤ j < i + fuel)%nat →
      ∃ row, final !! j = Some row ∧ R j (take j final) row.
Proof.
  intros Hbody. induction fuel as [|fuel IH]; intros i data s Hlen; simpl.
  - split; [lia|]. split; [by rewrite take_ge by lia|]. intros j Hj. lia.
  - unfold bind. destruct (body i data s) as [row s'] eqn:Hstep.
    assert (Hlen' : length (data ++ [row]) = S i).
    { rewrite length_app. simpl. lia. }
    destruct (IH (S i) (data ++ [row]) s' Hlen') as (Hfl & Htake & Hrows).
    set (final := (forPush fuel (S i) body (data ++ [row]) s').1) in *.
    assert (Htake_i : take i final = data).
    { replace (take i final) with (take i (take (S i) final))
        by (rewrite take_take; f_equal; lia).
      rewrite Htake. by rewrite take_app_length'. }
    split; [lia|]. split; [done|].
    intros j Hj. destruct (decide (j = i)) as [->|Hne].
    + exists row. split.
      * rewrite <- (lookup_take_lt final (S i) i) by lia. rewrite Htake.
        by rewrite list_lookup_middle.
      * rewrite Htake_i. specialize (Hbody i data s Hlen).
        by rewrite Hstep in Hbody.
    + apply Hrows. lia.
Qed.

End LoopFacts.

(** ** Series generator: length and timestamps *)





Lemma chart_companyStep_frame rand i iv data mult e (dp : obj) s key :
  key ≠ e → key ≠ e +:+ "_change" → key ≠ e +:+ "_volume" →
  (ChartJsx.companyStep rand i iv data mult e dp s).1 !! key = dp !! key.
Proof.
  intros H1 H2 H3. unfold ChartJsx.companyStep, bind, Math_random, ret. simpl.
  by rewrite !lookup_insert_ne by done.
Qed.




(** The rows of both generators, one property at a time. *)
Lemma chart_rows rand today tz n cs timeRange
    (R : obj → nat → list obj → obj → Prop) :
  (∀ iv i data s, length data = i →
     R iv i data (ChartJsx.point rand today tz timeRange n cs iv i data s).1) →
  let data := ChartJsx.generateStockData rand today tz n cs timeRange in
  length data = n
  ∧ ∀ j, (j < n)%nat →
      ∃ row, data !! j = Some row
             ∧ R (ChartJsx.initialValues rand cs O).1 j (take j data) row.
Proof.
  intros HR data. unfold data, ChartJsx.generateStockData, bind.
  destruct (ChartJsx.initialValues rand cs 0%nat) as [iv s] eqn:Hiv. simpl.
  destruct (forPush_rows (R iv)
              (ChartJsx.point rand today tz timeRange n cs iv) n
              (HR iv) O [] s eq_refl) as (Hlen & _ & Hrows).
  split; [done|]. intros j Hj. apply Hrows. lia.
Qed.





(** ** Series generator: the price walk *)







Lemma chart_initialValues_own rand cs c s :
  c ∈ cs →
  ∃ k, (ChartJsx.initialValues rand cs s).1 !! c
       = Some (JNum (Fin (rand k * 400 + 100))).
Proof.
  intros Hc. unfold ChartJsx.initialValues.
  apply (forEach_last
    (λ iv : obj, ∃ k, iv !! c = Some (JNum (Fin (rand k * 400 + 100)))) _ c).
  - intros a s0. exists s0. unfold bind, Math_random, ret. simpl.
    by rewrite lookup_insert_eq.
  - intros e a s0 He Hne [k Hk]. exists k.
    unfold bind, Math_random, ret. simpl. by rewrite lookup_insert_ne.
  - by left.
Qed.

Lemma lib_initialValues_own rand cs c s :
  c ∈ cs →
  ∃ k, (DataGenerator.initialValues rand cs s).1 !! c
       = Some (JNum (Fin (rand k * 400 + 100))).
Proof. apply chart_initialValues_own. Qed.





Section Walk.

Variable rand : nat → Q.
Hypothesis rand_unit : ∀ k, 0 <= rand k < 1.
Variables today tz : Z.
Variable n : nat.
Variable cs : list string.
Variable c : string.
Hypothesis c_listed : c ∈ cs.




End Walk.







(** ** Zoom listeners and the static scales *)

Lemma extends_trans j k σ1 σ2 σ3 :
  extends j σ1 σ2 → extends k σ2 σ3 → extends (j + k) σ1 σ3.
Proof.
  intros [Hl1 Hs1] [Hl2 Hs2]. split; [lia|].
  intros l Hl. rewrite Hs2 by lia. by apply Hs1.
Qed.

Lemma setDomain_fresh l d (σ : D3.store) s :
  l = length σ → extends 1 σ (D3.setDomain l d (σ ++ [s])).
Proof.
  intros ->. unfold D3.setDomain. split.
  - rewrite length_alter, length_app. simpl. lia.
  - intros l Hl. rewrite list_lookup_alter_ne by lia.
    by rewrite lookup_app_l.
Qed.

Lemma rescaleX_extends t x (σ : D3.store) :
  (x < length σ)%nat →
  ∃ c σ', D3.rescaleX t x σ = Some (c, σ') ∧ c = length σ ∧ extends 1 σ σ'.
Proof.
  intros Hx. destruct (lookup_lt_is_Some_2 σ x Hx) as [s Hs].
  unfold D3.rescaleX, D3.copy. rewrite Hs. simpl.
  eexists _, _. split; [reflexivity|]. split; [done|].
  by apply setDomain_fresh.
Qed.

Lemma rescaleY_extends t y (σ : D3.store) :
  (y < length σ)%nat →
  ∃ c σ', D3.rescaleY t y σ = Some (c, σ') ∧ c = length σ ∧ extends 1 σ σ'.
Proof.
  intros Hy. destruct (lookup_lt_is_Some_2 σ y Hy) as [s Hs].
  unfold D3.rescaleY, D3.copy. rewrite Hs. simpl.
  eexists _, _. split; [reflexivity|]. split; [done|].
  by apply setDomain_fresh.
Qed.

Lemma onZoom_frame data visible v (c : chart) t :
  (x c < length (scales c))%nat → (y c < length (scales c))%nat →
  let c' := onZoom data visible v c t in
  x c' = x c ∧ y c' = y c
  ∧ extends (copiesPerZoom v) (scales c) (scales c').
Proof.
  intros Hx Hy.
  destruct (rescaleX_extends t (x c) (scales c) Hx) as (nx & σ1 & HX & -> & H1).
  destruct v; simpl; unfold onZoomChart, onZoomDashboard, onZoomStockChart;
    rewrite HX.
  - destruct (rescaleY_extends t (y c) σ1) as (ny & σ2 & HY & -> & H2).
    { destruct H1 as [Hl _]. lia. }
    rewrite HY. simpl. split; [done|]. split; [done|].
    by apply (extends_trans 1 1 _ σ1).
  - destruct (rescaleY_extends t (y c) σ1) as (ny & σ2 & HY & -> & H2).
    { destruct H1 as [Hl _]. lia. }
    rewrite HY. simpl. split; [done|]. split; [done|].
    by apply (extends_trans 1 1 _ σ1).
  - destruct H1 as [Hl Hs].
    destruct (lookup_lt_is_Some_2 σ1 (length (scales c)) ltac:(lia)) as [sx Hsx].
    destruct (lookup_lt_is_Some_2 σ1 (y c) ltac:(lia)) as [sy Hsy].
    rewrite Hsx, Hsy. simpl. by repeat split.
Qed.

(** C8: whatever transforms the zoom events deliver, and in every
    component, the listener leaves the bindings [x] and [y] and the
    scale objects they name (domain and range) as the render effect
    made them, along with every other scale object that existed; each
    event only adds rescaled copies to the store. *)
Theorem zoom_keeps_static_scales data visible v (c : chart)
    (ts : list D3.transform) :
  (x c < length (scales c))%nat → (y c < length (scales c))%nat →
  let c' := foldl (onZoom data visible v) c ts in
  x c' = x c ∧ y c' = y c
  ∧ scales c' !! x c = scales c !! x c
  ∧ scales c' !! y c = scales c !! y c
  ∧ extends (copiesPerZoom v * length ts) (scales c) (scales c').
Proof.
  revert c. induction ts as [|t ts IH]; intros c Hx Hy; simpl.
  - repeat (split; [done|]). split; [lia | done].
  - destruct (onZoom_frame data visible v c t Hx Hy) as (Hx1 & Hy1 & Hext).
    set (c1 := onZoom data visible v c t) in *.
    destruct Hext as [Hl Hs].
    destruct (IH c1) as (Hx' & Hy' & Hsx & Hsy & Hext'); [lia | lia |].
    rewrite Hx', Hy', Hx1, Hy1. rewrite Hx1 in Hsx. rewrite Hy1 in Hsy.
    split; [done|]. split; [done|].
    split; [by rewrite Hsx, Hs|]. split; [by rewrite Hsy, Hs|].
    replace (copiesPerZoom v * S (length ts))%nat
      with (copiesPerZoom v + copiesPerZoom v * length ts)%nat by lia.
    by apply (extends_trans _ _ _ (scales c1)).
Qed.

Lemma zoom_keeps_static_scales_witness :
  let data : list obj :=
    [ {[ "date" := JIso 1700000000000; "A" := JNum (Fin 120) ]};
      {[ "date" := JIso 1700086400000; "A" := JNum (Fin 100) ]} ] in
  let c := renderScales data ["A"] "price" 800 430 in
  let ts := [D3.Transform 2 (-100) (-50); D3.Transform 4 (-300) 10;
             D3.zoomIdentity] in
  let c1 := foldl (onZoom data ["A"] ChartComponent) c ts in
  let c2 := foldl (onZoom data ["A"] StockChart) c ts in
  let xScale :=
    D3.Scale (Fin (inject_Z 1700000000000), Fin (inject_Z 1700086400000))
      (Fin 0, Fin 800) in
  let yScale := D3.Scale (Fin (100 * 0.9), Fin (120 * 1.1)) (Fin 430, Fin 0) in
  (x c < length (scales c))%nat ∧ (y c < length (scales c))%nat
  ∧ scales c1 !! x c1 = Some xScale ∧ scales c1 !! y c1 = Some yScale
  ∧ length (scales c1) = 8%nat
  ∧ scales c2 !! x c2 = Some xScale ∧ scales c2 !! y c2 = Some yScale
  ∧ length (scales c2) = 5%nat.
Proof.
  intros data c ts c1 c2 xScale yScale.
  assert (Hx : (x c < length (scales c))%nat) by (vm_compute; lia).
  assert (Hy : (y c < length (scales c))%nat) by (vm_compute; lia).
  destruct (zoom_keeps_static_scales data ["A"] ChartComponent c ts Hx Hy)
    as (Hx1 & Hy1 & Hsx1 & Hsy1 & Hlen1 & _).
  destruct (zoom_keeps_static_scales data ["A"] StockChart c ts Hx Hy)
    as (Hx2 & Hy2 & Hsx2 & Hsy2 & Hlen2 & _).
  fold c1 in Hx1, Hy1, Hsx1, Hsy1, Hlen1.
  fold c2 in Hx2, Hy2, Hsx2, Hsy2, Hlen2.
  split; [done|]. split; [done|].
  split; [rewrite Hx1, Hsx1; by vm_compute|].
  split; [rewrite Hy1, Hsy1; by vm_compute|].
  split; [by rewrite Hlen1|].
  split; [rewrite Hx2, Hsx2; by vm_compute|].
  split; [rewrite Hy2, Hsy2; by vm_compute|].
  by rewrite Hlen2.
Defined.

(** ** Tooltip formatting *)

Lemma digitChar_value d : (0 ≤ d ≤ 9)%Z → digitValue (Tooltip.digitChar d) = d.
Proof.
  intros Hd. unfold digitValue, Tooltip.digitChar.
  rewrite nat_ascii_embedding by lia. lia.
Qed.

Lemma digitsValue_app acc l1 l2 :
  digitsValue acc (l1 ++ l2) = digitsValue (digitsValue acc l1) l2.
Proof. revert acc. induction l1 as [|a l1 IH]; intros acc; simpl; [done|]. apply IH. Qed.

Lemma digitsFrom_spec fuel : ∀ n acc,
  (0 ≤ n < 10 ^ Z.of_nat fuel)%Z → (0 < fuel)%nat →
  ∃ ds, Tooltip.digitsFrom fuel n acc = ds ++ acc
        ∧ ds ≠ [] ∧ Forall isDigit ds ∧ digitsValue 0 ds = n.
Proof.
  induction fuel as [|fuel IH]; intros n acc Hn Hfuel; [lia|].
  simpl. pose proof (Z.mod_pos_bound n 10 ltac:(lia)) as Hmod.
  assert (Hd : isDigit (Tooltip.digitChar (n mod 10))).
  { unfold isDigit. rewrite digitChar_value; lia. }
  destruct (n <? 10)%Z eqn:Hlt.
  - apply Z.ltb_lt in Hlt. exists [Tooltip.digitChar (n mod 10)].
    split; [done|]. split; [done|]. split; [by constructor|].
    simpl. rewrite digitChar_value by lia. rewrite Z.mod_small; lia.
  - apply Z.ltb_ge in Hlt.
    assert (Hfuel' : (0 < fuel)%nat).
    { destruct fuel; [|lia]. simpl in Hn. lia. }
    destruct (IH (n / 10)%Z (Tooltip.digitChar (n mod 10) :: acc))
      as (ds & Heq & Hne & Hds & Hval); [|done|].
    { split; [apply Z.div_pos; lia|].
      apply Z.div_lt_upper_bound; [lia|].
      replace (Z.of_nat (S fuel)) with (Z.succ (Z.of_nat fuel)) in Hn by lia.
      rewrite Z.pow_succ_r in Hn by lia. lia. }
    exists (ds ++ [Tooltip.digitChar (n mod 10)]).
    split; [by rewrite Heq, <- app_assoc|].
    split; [by destruct ds|].
    split; [apply Forall_app; split; [done | by constructor]|].
    rewrite digitsValue_app, Hval. simpl. rewrite digitChar_value by lia.
    pose proof (Z.div_mod n 10 ltac:(lia)). lia.
Qed.

Lemma decimalDigits_spec n :
  (0 < n)%Z →
  Tooltip.decimalDigits n ≠ []
  ∧ Forall isDigit (Tooltip.decimalDigits n)
  ∧ digitsValue 0 (Tooltip.decimalDigits n) = n.
Proof.
  intros Hn. unfold Tooltip.decimalDigits.
  destruct (digitsFrom_spec (S (Z.to_nat (Z.log2 n))) n [])
    as (ds & Heq & Hne & Hds & Hval); [|lia|].
  - split; [lia|].
    pose proof (Z.log2_spec n Hn) as [_ Hlog].
    pose proof (Z.log2_nonneg n) as Hnn.
    replace (Z.of_nat (S (Z.to_nat (Z.log2 n)))) with (Z.succ (Z.log2 n)) by lia.
    eapply Z.lt_le_trans; [exact Hlog|].
    apply Z.pow_le_mono_l. lia.
  - rewrite Heq, app_nil_r. done.
Qed.

Lemma digitsValue_zeros k l :
  digitsValue 0 (replicate k "0"%char ++ l) = digitsValue 0 l.
Proof. induction k as [|k IH]; simpl; [done|]. apply IH. Qed.

Lemma zeros_digits k : Forall isDigit (replicate k "0"%char).
Proof. apply Forall_replicate. unfold isDigit. by vm_compute. Qed.

(** Rounding to the nearest integer, the larger one on a tie. *)
Lemma nearest_integer y :
  Qabs (inject_Z (Qfloor (y + 0.5)) - y) <= 0.5.
Proof.
  pose proof (Qfloor_le (y + 0.5)) as Hle.
  pose proof (Qlt_floor (y + 0.5)) as Hlt.
  rewrite inject_Z_plus in Hlt. change (inject_Z 1) with 1 in Hlt.
  set (n := inject_Z (Qfloor (y + 0.5))) in *.
  apply Qabs_Qle_condition. split; lra.
Qed.

Section FormatFacts.

Variable NumberToString : Q → string.
Variable compactFormat : num → string.

Lemma toFixed_finite f q :
  (0 < f)%nat → Qabs q < inject_Z (10 ^ 21) →
  ∃ s, Tooltip.toFixed NumberToString f (Fin q) = signOf q +:+ s
       ∧ fixedDecimal f (Qabs q) s.
Proof.
  intros Hf Hq. unfold Tooltip.toFixed. fold (signOf q).
  assert (Hsmall : Qle_bool (inject_Z (10 ^ 21)) (Qabs q) = false).
  { apply not_true_is_false. intros H. apply Qle_bool_iff in H. lra. }
  rewrite Hsmall.
  set (P := inject_Z (10 ^ Z.of_nat f)).
  set (n := Qfloor (Qabs q * P + 0.5)).
  assert (HP : 0 <= P).
  { unfold P. change 0 with (inject_Z 0). rewrite <- Zle_Qle.
    apply Z.pow_nonneg. lia. }
  assert (Hn : (0 ≤ n)%Z).
  { unfold n. change 0%Z with (Qfloor 0). apply Qfloor_resp_le.
    pose proof (Qabs_nonneg q).
    assert (0 <= Qabs q * P) by (by apply Qmult_le_0_compat). lra. }
  set (m := if (n =? 0)%Z then ["0"%char] else Tooltip.decimalDigits n).
  assert (Hm : m ≠ [] ∧ Forall isDigit m ∧ digitsValue 0 m = n).
  { unfold m. destruct (n =? 0)%Z eqn:Hz.
    - apply Z.eqb_eq in Hz. rewrite Hz. split; [done|].
      split; [|done]. constructor; [|done]. unfold isDigit. by vm_compute.
    - apply Z.eqb_neq in Hz. apply decimalDigits_spec. lia. }
  destruct Hm as (Hne & Hdig & Hval).
  replace (f =? 0)%nat with false by (symmetry; apply Nat.eqb_neq; lia).
  set (m' := if (length m <=? f)%nat
             then replicate (f + 1 - length m) "0"%char ++ m else m).
  assert (Hm' : (f < length m')%nat ∧ Forall isDigit m' ∧ digitsValue 0 m' = n).
  { unfold m'. destruct (length m <=? f)%nat eqn:Hle.
    - apply Nat.leb_le in Hle. split; [|split].
      + rewrite length_app, length_replicate. lia.
      + apply Forall_app. split; [apply zeros_digits | done].
      + by rewrite digitsValue_zeros.
    - apply Nat.leb_gt in Hle. by repeat split. }
  destruct Hm' as (Hlen & Hdig' & Hval').
  eexists. split; [reflexivity|].
  exists (take (length m' - f) m'), (drop (length m' - f) m').
  split; [done|]. split; [|split; [|split]].
  - intros Htake. apply (f_equal length) in Htake.
    rewrite length_take in Htake. simpl in Htake. lia.
  - rewrite length_drop. lia.
  - by rewrite take_drop.
  - rewrite take_drop, Hval'. apply nearest_integer.
Qed.

End FormatFacts.



(** * Further properties of the code *)

Local Set Warnings "-clear-no-such-hyp".

(** ** [toggleCompany] *)

Lemma elem_of_toggleCompany c (l : list string) e :
  e ∈ toggleCompany c l ↔ (e = c ∧ c ∉ l) ∨ (e ≠ c ∧ e ∈ l).
Proof.
  unfold toggleCompany. case_bool_decide as Hin.
  - rewrite list_elem_of_filter. destruct (decide (e = c)); subst; tauto.
  - rewrite elem_of_app, list_elem_of_singleton.
    destruct (decide (e = c)); subst; tauto.
Qed.

Lemma toggleCompany_NoDup c (l : list string) :
  NoDup l → NoDup (toggleCompany c l).
Proof.
  intros Hl. unfold toggleCompany. case_bool_decide as Hin.
  - by apply NoDup_filter.
  - apply NoDup_app. split; [done|]. split; [|apply NoDup_singleton].
    intros e He Hc. apply list_elem_of_singleton in Hc. by subst.
Qed.

(** X1: one toggle flips the visibility of the entity it names and of
    no other entity. *)
Theorem toggle_flips_one c (l : list string) e :
  e ∈ toggleCompany c l ↔ (if decide (e = c) then c ∉ l else e ∈ l).
Proof.
  rewrite elem_of_toggleCompany. case_decide; subst; tauto.
Qed.

(** X2: whatever is clicked, a visible list that starts without
    duplicates never gets one, and it only ever shows entities that
    were visible at the start or were clicked. *)
Theorem toggles_keep_NoDup (clicks l : list string) :
  NoDup l →
  let l' := foldl (λ visible c, toggleCompany c visible) l clicks in
  NoDup l' ∧ ∀ e, e ∈ l' → e ∈ l ∨ e ∈ clicks.
Proof.
  revert l. induction clicks as [|c clicks IH]; intros l Hl; simpl.
  - split; [done|]. by left.
  - destruct (IH (toggleCompany c l) (toggleCompany_NoDup c l Hl)) as [Hnd Hsub].
    split; [done|]. intros e He.
    destruct (Hsub e He) as [H|H].
    + apply elem_of_toggleCompany in H as [[-> _]|[_ H]].
      * right. by left.
      * by left.
    + right. by right.
Qed.

Lemma toggles_keep_NoDup_witness :
  NoDup ["Apple"; "Google"; "Amazon"]
  ∧ foldl (λ visible c, toggleCompany c visible) ["Apple"; "Google"; "Amazon"]
      ["Google"; "Tesla"; "Google"; "Apple"]
    = ["Amazon"; "Tesla"; "Google"]
  ∧ NoDup ["Amazon"; "Tesla"; "Google"].
Proof.
  assert (H : NoDup ["Apple"; "Google"; "Amazon"]) by by_eval.
  split; [done|]. split; [reflexivity|].
  exact (proj1 (toggles_keep_NoDup ["Google"; "Tesla"; "Google"; "Apple"]
                  ["Apple"; "Google"; "Amazon"] H)).
Defined.

(** X3: switching a hidden entity on and off again gives back the very
    same list: the entity was appended last and is the only one
    removed. *)
Theorem toggle_on_off c (l : list string) :
  c ∉ l → toggleCompany c (toggleCompany c l) = l.
Proof.
  intros Hout. rewrite (toggle_on c l Hout).
  rewrite toggle_off by (apply elem_of_app; right; by left).
  rewrite filter_app, filter_cons_False, filter_nil, app_nil_r by tauto.
  by apply filter_others_id.
Qed.

Lemma toggle_on_off_witness :
  ("D" ∉ ["A"; "B"; "C"])
  ∧ toggleCompany "D" (toggleCompany "D" ["A"; "B"; "C"]) = ["A"; "B"; "C"].
Proof.
  assert (H : "D" ∉ ["A"; "B"; "C"]) by by_eval.
  split; [done|]. by apply toggle_on_off.
Defined.

(** X4: the order of two clicks does not matter for what is visible:
    toggling [a] then [b] and toggling [b] then [a] show the same
    entities, and give the same list up to order when the start has no
    duplicates. *)
Theorem toggle_commute a b (l : list string) :
  (∀ e, e ∈ toggleCompany a (toggleCompany b l)
        ↔ e ∈ toggleCompany b (toggleCompany a l))
  ∧ (NoDup l →
     toggleCompany a (toggleCompany b l) ≡ₚ toggleCompany b (toggleCompany a l)).
Proof.
  assert (Hmem : ∀ e, e ∈ toggleCompany a (toggleCompany b l)
                      ↔ e ∈ toggleCompany b (toggleCompany a l)).
  { intros e. rewrite !elem_of_toggleCompany.
    destruct (decide (e = a)), (decide (e = b)), (decide (a = b)),
      (decide (a ∈ l)), (decide (b ∈ l)); subst; tauto. }
  split; [done|]. intros Hl.
  apply NoDup_Permutation; [by do 2 apply toggleCompany_NoDup..|done].
Qed.

Lemma toggle_commute_witness :
  NoDup ["A"; "B"; "C"]
  ∧ toggleCompany "A" (toggleCompany "D" ["A"; "B"; "C"])
    ≡ₚ toggleCompany "D" (toggleCompany "A" ["A"; "B"; "C"]).
Proof.
  assert (H : NoDup ["A"; "B"; "C"]) by by_eval.
  split; [done|]. by apply toggle_commute.
Defined.

(** ** Series generator: the shape of a row *)

Lemma string_app_inj (s1 s2 t1 t2 : string) :
  String.length t1 = String.length t2 →
  s1 +:+ t1 = s2 +:+ t2 → s1 = s2 ∧ t1 = t2.
Proof.
  revert s2. induction s1 as [|a s1 IH]; intros [|b s2] Hlen Heq.
  - done.
  - apply (f_equal String.length) in Heq.
    rewrite !string_length_app in Heq. simpl in Heq. lia.
  - apply (f_equal String.length) in Heq.
    rewrite !string_length_app in Heq. simpl in Heq. lia.
  - change (String a (s1 +:+ t1) = String b (s2 +:+ t2)) in Heq.
    injection Heq as -> Heq. destruct (IH s2 Hlen Heq) as [-> ->]. done.
Qed.

Lemma change_key_ne_volume_key e c : e +:+ "_change" ≠ c +:+ "_volume".
Proof. intros H. by apply string_app_inj in H as [_ H]. Qed.

Lemma volume_key_inj e c : e +:+ "_volume" = c +:+ "_volume" → e = c.
Proof. intros H. by apply string_app_inj in H as [H _]. Qed.








(** ** Series generator: volume, percent change, first and last date *)

Lemma volume_in_range r :
  0 <= r < 1 →
  ∃ v : Z, floor (add (mul (Fin r) (Fin 990000)) (Fin 10000)) = Fin (inject_Z v)
           ∧ (10000 ≤ v ≤ 999999)%Z.
Proof.
  intros Hr. eexists. split; [reflexivity|].
  set (y := r * 990000 + 10000).
  split.
  - change 10000%Z with (Qfloor (inject_Z 10000)) at 1.
    apply Qfloor_resp_le. unfold y. change (inject_Z 10000) with 10000. lra.
  - assert (Hlt : (Qfloor y < 1000000)%Z); [|lia].
    rewrite Zlt_Qlt. eapply Qle_lt_trans; [apply Qfloor_le|].
    unfold y. change (inject_Z 1000000) with 1000000. lra.
Qed.

(** X6: for draws in [[0, 1)], every row of [Chart.jsx]'s generator holds
    under [<entity>_volume] a whole number between 10000 and 999999,
    for every listed entity, provided no entity is itself named
    [<entity>_volume]. *)
Theorem generated_volume rand today tz n cs timeRange c :
  (∀ k, 0 <= rand k < 1) → c ∈ cs → c +:+ "_volume" ∉ cs →
  ∀ i, (i < n)%nat →
    ∃ v : Z,
      priceAt (ChartJsx.generateStockData rand today tz n cs timeRange) i
        (c +:+ "_volume") = Some (JNum (Fin (inject_Z v)))
      ∧ (10000 ≤ v ≤ 999999)%Z.
Proof.
  intros Hrand Hc Hfree i Hi.
  destruct (chart_rows rand today tz n cs timeRange
    (λ _ _ _ row, ∃ k, row !! (c +:+ "_volume")
       = Some (JNum (floor (add (mul (Fin (rand k)) (Fin 990000)) (Fin 10000))))))
    as [_ Hrows].
  { intros iv j data s _. unfold ChartJsx.point.
    apply (forEach_last (λ dp : obj, ∃ k, dp !! (c +:+ "_volume") = Some _) _ c).
    - intros a s0. exists (S s0).
      unfold ChartJsx.companyStep, bind, Math_random, ret. simpl.
      by rewrite lookup_insert_eq.
    - intros e a s0 He Hne [k Hk]. exists k.
      rewrite chart_companyStep_frame; [done|..].
      + intros Heq. apply Hfree. by rewrite Heq.
      + intros Heq. symmetry in Heq. by apply change_key_ne_volume_key in Heq.
      + intros Heq. symmetry in Heq. by apply volume_key_inj in Heq.
    - by left. }
  destruct (Hrows i Hi) as (row & Hrow & k & Hk).
  destruct (volume_in_range (rand k) (Hrand k)) as (v & Hv & Hbound).
  exists v. split; [|done].
  unfold priceAt. rewrite Hrow. simpl. by rewrite Hk, Hv.
Qed.

Lemma generated_volume_witness :
  let rand : nat → Q := λ k, if Nat.even k then 0.25 else 0.75 in
  (∀ k, 0 <= rand k < 1) ∧ "B" ∈ ["A"; "B"] ∧ ("B_volume" ∉ ["A"; "B"])
  ∧ ∃ v : Z,
      priceAt (ChartJsx.generateStockData rand 1700000000000 0 3 ["A"; "B"] "week")
        2 "B_volume" = Some (JNum (Fin (inject_Z v)))
      ∧ (10000 ≤ v ≤ 999999)%Z.
Proof.
  intros rand.
  assert (Hrand : ∀ k, 0 <= rand k < 1).
  { intros k. unfold rand. destruct (Nat.even k); lra. }
  assert (Hc : "B" ∈ ["A"; "B"]) by by_eval.
  assert (Hfree : "B" +:+ "_volume" ∉ ["A"; "B"]) by by_eval.
  split; [done|]. split; [done|]. split; [done|].
  exact (generated_volume rand 1700000000000 0 3 ["A"; "B"] "week" "B"
           Hrand Hc Hfree 2%nat ltac:(lia)).
Defined.







(** ** Scale Engine: what the y domain covers *)

Lemma elem_of_companyData (vd : list obj) key pt :
  pt ∈ companyData vd key ↔
  js_isNaN pt.2 = false
  ∧ ∃ d, d ∈ vd ∧ pt = (newDate (d !! "date"), d !! key).
Proof.
  unfold companyData. rewrite list_elem_of_filter, list_elem_of_fmap.
  split; intros [H1 (d & H2 & H3)]; (split; [done|]); by exists d.
Qed.

(** A drawn point of a visible entity is among the values of the
    domain computation. *)
Lemma companyData_in_values (keyOf : string → string) (vd : list obj)
    (visible : list string) c pt :
  c ∈ visible → pt ∈ companyData vd (keyOf c) →
  toNum pt.2 ∈ metricValues keyOf vd visible.
Proof.
  intros Hc Hpt. apply elem_of_companyData in Hpt as (Hnan & d & Hd & ->).
  apply elem_of_metricValues. split; [done|]. by exists d, c.
Qed.

(** X9: when no visible entity has a number under the metric's property
    in any row with a valid date (no visible entity, no valid row,
    properties missing or [NaN]), nothing is drawn for any visible
    entity and the y domain is built from [Math.min()] and [Math.max()]
    of nothing: [[Infinity, -Infinity]] for price, [[0, -Infinity]] for
    volume, [[-Infinity, Infinity]] otherwise. *)
Theorem yDomain_no_numbers (data : list obj) (visible : list string)
    (filteredMetric : string) :
  (∀ d c, d ∈ data → is_Some (newDate (d !! "date")) → c ∈ visible →
     js_isNaN (d !! metricKey filteredMetric c) = true) →
  (∀ c, c ∈ visible →
     companyData (validData data) (metricKey filteredMetric c) = [])
  ∧ yDomain data visible filteredMetric =
      if decide (filteredMetric = "price") then (PosInf, NegInf)
      else if decide (filteredMetric = "volume") then (Fin 0, NegInf)
      else (NegInf, PosInf).
Proof.
  intros Hnone. split.
  - intros c Hc. apply elem_of_nil_inv. intros pt Hpt.
    apply elem_of_companyData in Hpt as (Hnan & d & Hd & ->).
    apply elem_of_validData in Hd as [Hvalid Hd].
    simpl in Hnan. by rewrite (Hnone d c Hd Hvalid Hc) in Hnan.
  - assert (Hempty : ∀ keyOf,
      (∀ c, keyOf c = metricKey filteredMetric c) →
      metricValues keyOf (validData data) visible = []).
    { intros keyOf Hkey. apply elem_of_nil_inv. intros v Hv.
      apply elem_of_metricValues in Hv as (Hnan & d & c & Hd & Hc & <-).
      apply elem_of_validData in Hd as [Hvalid Hd].
      specialize (Hnone d c Hd Hvalid Hc). rewrite <- Hkey in Hnone.
      unfold js_isNaN in Hnone. congruence. }
    unfold yDomain, metricKey in *.
    repeat case_decide; rewrite Hempty; try done.
Qed.

Lemma yDomain_no_numbers_witness :
  let data : list obj :=
    [ {[ "date" := JIso 1700000000000 ]}; {[ "date" := JIso 1700086400000 ]};
      {[ "date" := JNum NaN; "A" := JNum (Fin 3) ]} ] in
  (∀ d c, d ∈ data → is_Some (newDate (d !! "date")) → c ∈ ["A"; "B"] →
     js_isNaN (d !! metricKey "price" c) = true)
  ∧ yDomain data ["A"; "B"] "price" = (PosInf, NegInf).
Proof.
  intros data.
  assert (H : ∀ d c, d ∈ data → is_Some (newDate (d !! "date")) →
                c ∈ ["A"; "B"] → js_isNaN (d !! metricKey "price" c) = true).
  { intros d c Hd Hvalid Hc.
    repeat (apply elem_of_cons in Hc as [->|Hc]); [| |by inversion Hc];
      repeat (apply elem_of_cons in Hd as [->|Hd]);
      try (by inversion Hd); try (by vm_compute);
      destruct Hvalid as [t Ht]; by vm_compute in Ht. }
  split; [done|].
  exact (proj2 (yDomain_no_numbers data ["A"; "B"] "price" H)).
Defined.

Lemma abs_le_bounds v a : le (abs v) a → le (neg a) v ∧ le v a.
Proof.
  destruct v as [| |q|], a as [| |b|]; simpl; try tauto.
  intros H. apply Qabs_Qle_condition in H. lra.
Qed.

Lemma change_domain (data : list obj) (visible : list string) :
  let values := metricValues changeKey (validData data) visible in
  values ≠ [] →
  ∃ a, yDomain data visible "change" = (neg a, a)
       ∧ ∀ v, v ∈ values → le (abs v) a.
Proof.
  intros values Hne. unfold yDomain.
  rewrite decide_False by done. rewrite decide_False by done. fold values.
  pose proof (metricValues_numbers changeKey (validData data) visible) as Hnum.
  fold values in Hnum.
  destruct (Math_min_least values Hnum Hne) as [Hmin_in Hmin].
  destruct (Math_max_greatest values Hnum Hne) as [Hmax_in Hmax].
  set (lo := Math_min values) in *. set (hi := Math_max values) in *.
  assert (Hlo : isNaN (abs lo) = false).
  { apply abs_not_NaN. by apply (proj1 (Forall_forall _ _) Hnum). }
  assert (Hhi : isNaN (abs hi) = false).
  { apply abs_not_NaN. by apply (proj1 (Forall_forall _ _) Hnum). }
  assert (Habs : Math_max [abs lo; abs hi]
                 = if ltb (abs lo) (abs hi) then abs hi else abs lo).
  { unfold Math_max. simpl. rewrite Hlo, Hhi. by destruct lo. }
  rewrite Habs. eexists. split; [reflexivity|].
  intros v Hv. apply abs_between; auto.
Qed.

(** X10: for metric ["change"], every point drawn for a visible entity
    has its value inside the y domain, whatever the values are
    (negative, infinite); so does the zero of the reference line. *)
Theorem change_points_in_domain (data : list obj) (visible : list string) c pt :
  c ∈ visible →
  pt ∈ companyData (validData data) (metricKey "change" c) →
  let '(lo, hi) := yDomain data visible "change" in
  le lo (toNum pt.2) ∧ le (toNum pt.2) hi ∧ le lo (Fin 0) ∧ le (Fin 0) hi.
Proof.
  intros Hc Hpt.
  pose proof (companyData_in_values changeKey _ visible c pt Hc Hpt) as Hv.
  destruct (change_domain data visible) as (a & -> & Ha).
  { intros Hnil. rewrite Hnil in Hv. by inversion Hv. }
  specialize (Ha _ Hv).
  destruct (abs_le_bounds _ _ Ha) as [H1 H2]. split; [done|]. split; [done|].
  apply abs_le_bounds.
  destruct (toNum pt.2) as [| |q|], a as [| |b|]; try (simpl in *; tauto).
  simpl in Ha. change (0 <= b).
  eapply Qle_trans; [apply (Qabs_nonneg q) | exact Ha].
Qed.

Lemma change_points_in_domain_witness :
  let data : list obj :=
    [ {[ "date" := JIso 1700000000000; "A_change" := JNum (Fin (-3.5));
         "B_change" := JNum (Fin 2) ]};
      {[ "date" := JIso 1700086400000; "A_change" := JNum (Fin 1.25);
         "B_change" := JNum NaN ]} ] in
  let pt : option Z * option jsval :=
    (Some 1700000000000%Z, Some (JNum (Fin 2))) in
  "B" ∈ ["A"; "B"]
  ∧ companyData (validData data) (metricKey "change" "B") = [pt]
  ∧ let '(lo, hi) := yDomain data ["A"; "B"] "change" in
    le lo (Fin 2) ∧ le (Fin 2) hi ∧ le lo (Fin 0) ∧ le (Fin 0) hi.
Proof.
  intros data pt.
  assert (Hc : "B" ∈ ["A"; "B"]) by by_eval.
  assert (Hpts : companyData (validData data) (metricKey "change" "B") = [pt])
    by by vm_compute.
  split; [done|]. split; [done|].
  apply (change_points_in_domain data ["A"; "B"] "B" pt Hc).
  rewrite Hpts. by left.
Defined.

Lemma finite_extremes (values : list num) :
  values ≠ [] → (∀ v, v ∈ values → ∃ q, v = Fin q) →
  ∃ m M, Math_min values = Fin m ∧ Math_max values = Fin M
         ∧ Fin m ∈ values ∧ Fin M ∈ values
         ∧ ∀ q, Fin q ∈ values → m <= q <= M.
Proof.
  intros Hne Hfin.
  assert (Hnum : Forall (λ v, isNaN v = false) values).
  { apply Forall_forall. intros v Hv. by destruct (Hfin v Hv) as [q ->]. }
  destruct (Math_min_least values Hnum Hne) as [Hmin_in Hmin].
  destruct (Math_max_greatest values Hnum Hne) as [Hmax_in Hmax].
  destruct (Hfin _ Hmin_in) as [m Hm]. destruct (Hfin _ Hmax_in) as [M HM].
  exists m, M. rewrite Hm, HM in *. repeat (split; [done|]).
  intros q Hq. split; [exact (Hmin _ Hq) | exact (Hmax _ Hq)].
Qed.

(** X11: with finite visible values, the price domain
    [[min × 0.9, max × 1.1]] and the volume domain [[0, max × 1.1]]
    contain every visible value exactly when the least visible value is
    not negative; a negative minimum lies below the lower end. *)
Theorem price_volume_domain_covers (data : list obj) (visible : list string)
    (filteredMetric : string) :
  filteredMetric = "price" ∨ filteredMetric = "volume" →
  let values :=
    metricValues (metricKey filteredMetric) (validData data) visible in
  values ≠ [] → (∀ v, v ∈ values → ∃ q, v = Fin q) →
  let '(lo, hi) := yDomain data visible filteredMetric in
  (∀ v, v ∈ values → le lo v ∧ le v hi) ↔ le (Fin 0) (Math_min values).
Proof.
  intros Hmetric values Hne Hfin.
  destruct (finite_extremes values Hne Hfin) as (m & M & Hm & HM & Hmi & HMi & Hb).
  pose proof (Hb m Hmi) as HmM.
  destruct Hmetric as [-> | ->]; unfold yDomain.
  - rewrite decide_True by done.
    change (metricValues priceKey (validData data) visible) with values.
    rewrite Hm, HM. simpl. split.
    + intros Hall. destruct (Hall _ Hmi) as [H _]. simpl in H. lra.
    + intros H0 v Hv. destruct (Hfin v Hv) as [q ->].
      destruct (Hb q Hv). simpl. split; lra.
  - rewrite decide_False by done. rewrite decide_True by done.
    change (metricValues volumeKey (validData data) visible) with values.
    rewrite Hm, HM. simpl. split.
    + intros Hall. by destruct (Hall _ Hmi) as [H _].
    + intros H0 v Hv. destruct (Hfin v Hv) as [q ->].
      destruct (Hb q Hv). simpl. split; lra.
Qed.

Lemma price_volume_domain_covers_witness :
  let data : list obj :=
    [ {[ "date" := JIso 1700000000000; "A" := JNum (Fin (-2)) ]};
      {[ "date" := JIso 1700086400000; "A" := JNum (Fin 10) ]} ] in
  let values := metricValues (metricKey "price") (validData data) ["A"] in
  values = [Fin (-2); Fin 10]
  ∧ yDomain data ["A"] "price" = (Fin (-2 * 0.9), Fin (10 * 1.1))
  ∧ ¬ le (Fin 0) (Math_min values)
  ∧ ¬ (∀ v, v ∈ values →
         le (Fin (-2 * 0.9)) v ∧ le v (Fin (10 * 1.1))).
Proof.
  intros data values.
  assert (Hv : values = [Fin (-2); Fin 10]) by by vm_compute.
  assert (Hne : values ≠ []) by by rewrite Hv.
  assert (Hfin : ∀ v, v ∈ values → ∃ q, v = Fin q).
  { intros v. rewrite Hv. intros H.
    repeat (apply elem_of_cons in H as [->|H]); [by eexists..|by inversion H]. }
  pose proof (price_volume_domain_covers data ["A"] "price"
                (or_introl eq_refl) Hne Hfin) as Hiff.
  assert (Hdom : yDomain data ["A"] "price" = (Fin (-2 * 0.9), Fin (10 * 1.1)))
    by by vm_compute.
  rewrite Hdom in Hiff.
  assert (Hneg : ¬ le (Fin 0) (Math_min values)) by by vm_compute.
  split; [done|]. split; [done|]. split; [done|].
  intros Hall. by apply Hneg, Hiff.
Defined.

(** ** From the generator to the scale *)





(** ** View configuration *)

Lemma accepted_elem allowed param :
  accepted allowed param = true → default "" param ∈ allowed.
Proof.
  destruct param as [p|]; simpl; [|done].
  intros H. apply andb_true_iff in H as [_ H]. by apply bool_decide_eq_true in H.
Qed.

Lemma parseUrlParams_valid get v : validView v → validView (parseUrlParams get v).
Proof.
  intros (H1 & H2 & H3). unfold parseUrlParams, validView.
  destruct (accepted ["line"; "bar"] (get "chartType")) eqn:E1;
    destruct (accepted ["day"; "week"; "month"] (get "timeRange")) eqn:E2;
    destruct (accepted ["price"; "volume"; "change"] (get "metric")) eqn:E3;
    simpl; repeat split; auto using accepted_elem.
Qed.

Lemma press_valid b v : validView v → validView (press b v).
Proof.
  intros (H1 & H2 & H3). unfold validView.
  destruct b; simpl; repeat split; try done; by_eval.
Qed.

(** X13: whatever the query string holds and whatever is clicked, the
    dashboard's chart type is ["line"] or ["bar"], its time range
    ["day"], ["week"] or ["month"] and its metric ["price"], ["volume"]
    or ["change"].  So the generator's multiplier is 0.5, 1 or 2, never
    the fallback 3, and the last branch of the y domain is only taken
    for ["change"]. *)
Theorem view_state_valid v :
  viewReachable v →
  chartType v ∈ ["line"; "bar"]
  ∧ timeRange v ∈ ["day"; "week"; "month"]
  ∧ filteredMetric v ∈ ["price"; "volume"; "change"]
  ∧ ChartJsx.rangeMultiplier (timeRange v) ∈ [Fin 0.5; Fin 1; Fin 2]
  ∧ (filteredMetric v ≠ "price" → filteredMetric v ≠ "volume" →
     filteredMetric v = "change").
Proof.
  intros Hv.
  assert (Hvalid : validView v).
  { induction Hv as [|get v Hv IH|b v Hv IH].
    - unfold validView. simpl. repeat split; by_eval.
    - by apply parseUrlParams_valid.
    - by apply press_valid. }
  destruct Hvalid as (H1 & H2 & H3). repeat (split; [done|]). split.
  - repeat (apply elem_of_cons in H2 as [->|H2]); [..|by inversion H2].
    + by left.
    + right. by left.
    + right. right. by left.
  - intros Hp Hvol.
    repeat (apply elem_of_cons in H3 as [H3|H3]); try done. by inversion H3.
Qed.

Lemma view_state_valid_witness :
  let get : string → option string := λ name,
    if String.eqb name "chartType" then Some "pie"
    else if String.eqb name "timeRange" then Some "week"
    else if String.eqb name "metric" then Some ""
    else None in
  let v := press ChangeButton (parseUrlParams get initialViewState) in
  viewReachable v
  ∧ v = ViewState "line" "week" "change" false
  ∧ ChartJsx.rangeMultiplier (timeRange v) ∈ [Fin 0.5; Fin 1; Fin 2].
Proof.
  intros get v.
  assert (Hv : viewReachable v) by (repeat constructor).
  split; [done|]. split; [reflexivity|].
  by destruct (view_state_valid v Hv) as (_ & _ & _ & H & _).
Defined.

(** ** Entity colours *)

Lemma indexOf_present company (companies : list string) :
  company ∈ companies →
  ∃ i, indexOf company companies = Z.of_nat i
       ∧ companies !! i = Some company.
Proof.
  intros Hin. unfold indexOf.
  destruct (list_find (λ c, c = company) companies) as [[i c]|] eqn:Hfind.
  - apply list_find_Some in Hfind as (Hi & -> & _). by exists i.
  - apply list_find_None in Hfind.
    by apply (proj1 (Forall_forall _ _) Hfind) in Hin.
Qed.

Lemma indexOf_absent company (companies : list string) :
  company ∉ companies → indexOf company companies = (-1)%Z.
Proof.
  intros Hout. unfold indexOf.
  destruct (list_find (λ c, c = company) companies) as [[i c]|] eqn:Hfind; [|done].
  apply list_find_Some in Hfind as (Hi & -> & _).
  destruct Hout. by eapply list_elem_of_lookup_2.
Qed.

(** X14: in the controls, two different entities among the first five of
    the list get different colours of the palette, and an entity that is
    sixth or later, or not in the list at all, gets the grey
    ["#666666"], which is not in the palette. *)
Theorem company_colors_distinct (companies : list string) :
  (∀ a b, a ∈ companies → b ∈ companies →
     (indexOf a companies < 5)%Z → (indexOf b companies < 5)%Z →
     getCompanyColor companies a = getCompanyColor companies b → a = b)
  ∧ (∀ a, a ∈ companies → (indexOf a companies < 5)%Z →
       getCompanyColor companies a ∈ COMPANY_COLORS)
  ∧ (∀ a, a ∉ companies ∨ (5 ≤ indexOf a companies)%Z →
       getCompanyColor companies a = "#666666")
  ∧ "#666666" ∉ COMPANY_COLORS.
Proof.
  assert (Hcolor : ∀ a, a ∈ companies → (indexOf a companies < 5)%Z →
    ∃ i, (i < 5)%nat ∧ companies !! i = Some a
         ∧ COMPANY_COLORS !! i = Some (getCompanyColor companies a)).
  { intros a Ha Hlt. destruct (indexOf_present a companies Ha) as (i & Hi & Hai).
    exists i. rewrite Hi in Hlt. split; [lia|]. split; [done|].
    unfold getCompanyColor. rewrite Hi.
    replace (Z.of_nat i <? 0)%Z with false by (symmetry; apply Z.ltb_ge; lia).
    rewrite Nat2Z.id.
    do 5 (destruct i as [|i]; [reflexivity|]). lia. }
  split; [|split; [|split]].
  - intros a b Ha Hb Hia Hib Heq.
    destruct (Hcolor a Ha Hia) as (i & Hi & Hai & Hci).
    destruct (Hcolor b Hb Hib) as (j & Hj & Hbj & Hcj).
    rewrite <- Heq in Hcj.
    assert (i = j) as ->.
    { eapply (NoDup_lookup COMPANY_COLORS); [by_eval|done..]. }
    congruence.
  - intros a Ha Hia. destruct (Hcolor a Ha Hia) as (i & _ & _ & Hci).
    by eapply list_elem_of_lookup_2.
  - intros a [Hout|Hge]; unfold getCompanyColor.
    + by rewrite (indexOf_absent a companies Hout).
    + replace (indexOf a companies <? 0)%Z with false
        by (symmetry; apply Z.ltb_ge; lia).
      rewrite lookup_ge_None_2; [done|]. simpl. lia.
  - by_eval.
Qed.

Lemma company_colors_distinct_witness :
  let companies := ["Apple"; "Google"; "Amazon"; "Microsoft"; "Tesla"; "Meta"] in
  "Google" ∈ companies ∧ "Tesla" ∈ companies
  ∧ (indexOf "Google" companies < 5)%Z ∧ (indexOf "Tesla" companies < 5)%Z
  ∧ getCompanyColor companies "Google" ≠ getCompanyColor companies "Tesla"
  ∧ getCompanyColor companies "Meta" = "#666666"
  ∧ getCompanyColor companies "Nokia" = "#666666".
Proof.
  intros companies.
  assert (Hg : "Google" ∈ companies) by by_eval.
  assert (Ht : "Tesla" ∈ companies) by by_eval.
  assert (Hig : (indexOf "Google" companies < 5)%Z) by by vm_compute.
  assert (Hit : (indexOf "Tesla" companies < 5)%Z) by by vm_compute.
  destruct (company_colors_distinct companies) as (Hinj & _ & Hgrey & _).
  do 4 (split; [done|]). split; [|split].
  - intros Heq. by specialize (Hinj _ _ Hg Ht Hig Hit Heq).
  - apply Hgrey. right. by vm_compute.
  - apply Hgrey. left. by_eval.
Defined.

(** ** Tooltip: sign and colour *)

Lemma digit_not_minus a : isDigit a → a ≠ "-"%char.
Proof.
  intros Ha ->. unfold isDigit in Ha.
  change (digitValue "-"%char) with (-3)%Z in Ha. lia.
Qed.

Lemma fixedDecimal_head f x s :
  fixedDecimal f x s → ∃ a rest, s = String a rest ∧ isDigit a.
Proof.
  intros (ip & fp & -> & Hne & _ & Hdig & _).
  destruct ip as [|a ip]; [done|]. simpl.
  eexists _, _. split; [reflexivity|].
  by inversion Hdig.
Qed.

Lemma Qle_bool_false a b : Qle_bool a b = false ↔ b < a.
Proof.
  split.
  - intros H. apply Qnot_le_lt. intros Hle. apply Qle_bool_iff in Hle. congruence.
  - intros H. apply not_true_is_false. intros Hle. apply Qle_bool_iff in Hle. lra.
Qed.

Lemma valueClass_change q :
  (q < 0 ∧ valueClass "change" (Fin q) = "text-red-500")
  ∨ (q == 0 ∧ valueClass "change" (Fin q) = "")
  ∨ (0 < q ∧ valueClass "change" (Fin q) = "text-green-500").
Proof.
  unfold valueClass. rewrite decide_True by done. simpl.
  destruct (Qle_bool q 0) eqn:E1; destruct (Qle_bool 0 q) eqn:E2; simpl;
    try apply Qle_bool_iff in E1; try apply Qle_bool_iff in E2;
    try apply Qle_bool_false in E1; try apply Qle_bool_false in E2.
  - right. left. split; [lra | done].
  - left. by split.
  - right. right. by split.
  - lra.
Qed.

(** X15: in the tooltip of metric ["change"], a value is printed with a
    leading minus sign exactly when it is coloured red, that is exactly
    when it is negative, however small; and it is coloured green exactly
    when it is positive. *)
Theorem tooltip_sign_and_colour NumberToString compactFormat q :
  Qabs q < inject_Z (10 ^ 21) →
  let text := Tooltip.formatValue NumberToString compactFormat (Fin q) "change" in
  ((∃ rest, text = String "-" rest) ↔ valueClass "change" (Fin q) = "text-red-500")
  ∧ (valueClass "change" (Fin q) = "text-red-500" ↔ q < 0)
  ∧ (valueClass "change" (Fin q) = "text-green-500" ↔ 0 < q).
Proof.
  intros Hq text.
  destruct (toFixed_finite NumberToString 1 q ltac:(lia) Hq) as (s & Hs & Hfix).
  destruct (fixedDecimal_head _ _ _ Hfix) as (a & rest & -> & Ha).
  assert (Htext : text = (signOf q +:+ String a rest) +:+ "%").
  { unfold text, Tooltip.formatValue.
    rewrite decide_False by done. rewrite decide_False by done. by rewrite Hs. }
  destruct (valueClass_change q) as [[Hlt Hc]|[[Hz Hc]|[Hgt Hc]]];
    rewrite Hc, Htext; unfold signOf.
  - replace (Qle_bool 0 q) with false by (symmetry; apply Qle_bool_false; lra).
    repeat split; try done; try lra. by eexists.
  - replace (Qle_bool 0 q) with true by (symmetry; apply Qle_bool_iff; lra).
    repeat split; try done; try lra.
    intros [r Hr]. injection Hr as -> _. by apply digit_not_minus in Ha.
  - replace (Qle_bool 0 q) with true by (symmetry; apply Qle_bool_iff; lra).
    repeat split; try done; try lra.
    intros [r Hr]. injection Hr as -> _. by apply digit_not_minus in Ha.
Qed.

Lemma tooltip_sign_and_colour_witness :
  let text := Tooltip.formatValue (λ _, "1e+21") (λ _, "52K")
                (Fin (-(0.01))) "change" in
  Qabs (-(0.01)) < inject_Z (10 ^ 21)
  ∧ text = "-0.0%"
  ∧ valueClass "change" (Fin (-(0.01))) = "text-red-500".
Proof.
  intros text.
  assert (Hq : Qabs (-(0.01)) < inject_Z (10 ^ 21)) by by vm_compute.
  destruct (tooltip_sign_and_colour (λ _, "1e+21") (λ _, "52K") (-(0.01)) Hq)
    as (Hsign & _ & _).
  split; [done|]. split; [by vm_compute|].
  apply Hsign. by exists "0.0%".
Defined.

(** ** Zoom listeners: what is drawn *)

Lemma rescaleX_value t x (σ : D3.store) s :
  σ !! x = Some s →
  D3.rescaleX t x σ = Some (length σ, σ ++ [rescaledX t s]).
Proof.
  intros Hs. unfold D3.rescaleX, D3.copy. rewrite Hs. simpl.
  unfold D3.setDomain. rewrite alter_app_r_alt by lia.
  by rewrite Nat.sub_diag.
Qed.

Lemma rescaleY_value t y (σ : D3.store) s :
  σ !! y = Some s →
  D3.rescaleY t y σ = Some (length σ, σ ++ [rescaledY t s]).
Proof.
  intros Hs. unfold D3.rescaleY, D3.copy. rewrite Hs. simpl.
  unfold D3.setDomain. rewrite alter_app_r_alt by lia.
  by rewrite Nat.sub_diag.
Qed.

Lemma onZoom_scene data visible v (c : chart) t sx sy :
  scales c !! x c = Some sx → scales c !! y c = Some sy →
  let c' := onZoom data visible v c t in
  drawn c' = zoomScene data visible v sx sy (drawn c) t
  ∧ x c' = x c ∧ y c' = y c
  ∧ scales c' !! x c = Some sx ∧ scales c' !! y c = Some sy.
Proof.
  intros Hx Hy.
  pose proof (lookup_lt_Some _ _ _ Hx) as Hxl.
  pose proof (lookup_lt_Some _ _ _ Hy) as Hyl.
  assert (Hy1 : (scales c ++ [rescaledX t sx]) !! y c = Some sy)
    by by rewrite lookup_app_l.
  assert (Hlen1 : length (scales c ++ [rescaledX t sx]) = S (length (scales c))).
  { rewrite length_app. simpl. lia. }
  assert (Hx2 : ∀ s2, ((scales c ++ [rescaledX t sx]) ++ [s2]) !! x c = Some sx).
  { intros s2. rewrite lookup_app_l by lia. by rewrite lookup_app_l. }
  assert (Hy2 : ∀ s2, ((scales c ++ [rescaledX t sx]) ++ [s2]) !! y c = Some sy).
  { intros s2. by rewrite lookup_app_l by lia. }
  assert (HnewX : ∀ s2, ((scales c ++ [rescaledX t sx]) ++ [s2])
                        !! length (scales c) = Some (rescaledX t sx)).
  { intros s2. rewrite lookup_app_l by lia. by rewrite list_lookup_middle. }
  destruct v; simpl; unfold onZoomChart, onZoomDashboard, onZoomStockChart;
    rewrite (rescaleX_value t _ _ _ Hx).
  - rewrite (rescaleY_value t _ _ _ Hy1). simpl.
    rewrite HnewX, Hx2, Hy2. by rewrite list_lookup_middle.
  - rewrite (rescaleY_value t _ _ _ Hy1). simpl.
    rewrite HnewX, Hx2, Hy2. by rewrite list_lookup_middle.
  - rewrite list_lookup_middle by done. rewrite Hy1. simpl.
    by rewrite lookup_app_l by lia.
Qed.

Lemma zoomScene_last data visible v sx sy prev t1 t2 :
  zoomScene data visible v sx sy (zoomScene data visible v sx sy prev t1) t2
  = zoomScene data visible v sx sy prev t2.
Proof. by destruct v. Qed.

Lemma onZoom_fold_scene data visible v sx sy ts : ∀ (c : chart) t,
  scales c !! x c = Some sx → scales c !! y c = Some sy →
  drawn (foldl (onZoom data visible v) c (ts ++ [t]))
  = zoomScene data visible v sx sy (drawn c) t.
Proof.
  induction ts as [|t0 ts IH]; intros c t Hx Hy; simpl.
  - by destruct (onZoom_scene data visible v c t sx sy Hx Hy) as [H _].
  - destruct (onZoom_scene data visible v c t0 sx sy Hx Hy)
      as (Hd & Hx' & Hy' & Hsx & Hsy).
    rewrite IH by (by rewrite ?Hx', ?Hy').
    rewrite Hd. apply zoomScene_last.
Qed.

(** X16: the last zoom event wins.  After any sequence of zoom events
    the scene (axes, grid, chart-group transform, redrawn lines) is the
    one that the last event alone would have drawn on the freshly
    rendered chart: nothing accumulates from earlier events. *)
Theorem zoom_last_event_wins data visible v (c : chart)
    (ts : list D3.transform) t :
  (x c < length (scales c))%nat → (y c < length (scales c))%nat →
  drawn (foldl (onZoom data visible v) c (ts ++ [t]))
  = drawn (onZoom data visible v c t).
Proof.
  intros Hx Hy.
  destruct (lookup_lt_is_Some_2 _ _ Hx) as [sx Hsx].
  destruct (lookup_lt_is_Some_2 _ _ Hy) as [sy Hsy].
  rewrite (onZoom_fold_scene data visible v sx sy ts c t Hsx Hsy).
  by destruct (onZoom_scene data visible v c t sx sy Hsx Hsy) as [-> _].
Qed.

Lemma zoom_last_event_wins_witness :
  let data : list obj :=
    [ {[ "date" := JIso 1700000000000; "A" := JNum (Fin 120) ]};
      {[ "date" := JIso 1700086400000; "A" := JNum (Fin 100) ]} ] in
  let c := renderScales data ["A"] "price" 800 430 in
  let ts := [D3.Transform 2 (-100) (-50); D3.Transform 4 (-300) 10] in
  let t := D3.Transform 1.5 (-20) 0 in
  (x c < length (scales c))%nat ∧ (y c < length (scales c))%nat
  ∧ drawn (foldl (onZoom data ["A"] StockChart) c (ts ++ [t]))
    = drawn (onZoom data ["A"] StockChart c t)
  ∧ chartGroup (drawn (foldl (onZoom data ["A"] DashboardChart) c (ts ++ [t])))
    = Some t.
Proof.
  intros data c ts t.
  assert (Hx : (x c < length (scales c))%nat) by (vm_compute; lia).
  assert (Hy : (y c < length (scales c))%nat) by (vm_compute; lia).
  split; [done|]. split; [done|]. split.
  - exact (zoom_last_event_wins data ["A"] StockChart c ts t Hx Hy).
  - by rewrite (zoom_last_event_wins data ["A"] DashboardChart c ts t Hx Hy).
Defined.






(** ** Bars *)

Lemma ofNat_pos n : (1 ≤ n)%nat → 0 < inject_Z (Z.of_nat n).
Proof. intros Hn. change 0 with (inject_Z 0). rewrite <- Zlt_Qlt. lia. Qed.

Lemma div_fin a b : 0 < b → div (Fin a) (Fin b) = Fin (a / b).
Proof.
  intros Hb. simpl.
  replace (Qeq_bool b 0) with false; [done|].
  symmetry. apply not_true_is_false. intros H. apply Qeq_bool_iff in H. lra.
Qed.

Lemma Qdiv_pos a b : 0 < a → 0 < b → 0 < a / b.
Proof.
  intros Ha Hb. apply Qlt_shift_div_l; [done|]. lra.
Qed.






(** X20: the dashboard chart never draws a bar narrower than 5 pixels;
    the bars of the visible entities at one slot then fit into the
    slot's share of the plot width ([width / validData.length]) exactly
    when that share is at least 5 pixels for each visible entity. *)
Theorem dashboard_bar_width (width : Q) (validLength visibleLength : nat) :
  0 < width → (1 ≤ validLength)%nat → (1 ≤ visibleLength)%nat →
  let n := inject_Z (Z.of_nat visibleLength) in
  let share := width / inject_Z (Z.of_nat validLength) in
  ∃ b, dashboardBarWidth (Fin width) validLength visibleLength = Fin b
    ∧ 5 <= b
    ∧ (n * b <= share ↔ 5 * n <= share).
Proof.
  intros Hw HL Hn n share.
  pose proof (ofNat_pos validLength HL) as HLpos.
  pose proof (ofNat_pos visibleLength Hn) as Hnpos. fold n in Hnpos.
  assert (Hshare : 0 < share) by (by apply Qdiv_pos).
  assert (Hq : n * (share / n * 0.8) == share * 0.8) by (field; lra).
  assert (Hbw : dashboardBarWidth (Fin width) validLength visibleLength
                = if Qle_bool (share / n * 0.8) 5 then Fin 5
                  else Fin (share / n * 0.8)).
  { unfold dashboardBarWidth, ofNat. rewrite (div_fin width _ HLpos).
    fold share n. rewrite (div_fin share n Hnpos).
    cbn [mul]. generalize (share / n * 0.8). intros q.
    unfold Math_max. cbn [max_from isNaN ltb].
    by destruct (Qle_bool q 5). }
  rewrite Hbw. clear Hbw. revert Hq. generalize (share / n * 0.8).
  intros q Hq. destruct (Qle_bool q 5) eqn:Hle.
  - exists 5. split; [done|]. split; [lra|]. split; intros; lra.
  - exists q. apply Qle_bool_false in Hle. split; [done|]. split; [lra|].
    pose proof (Qmult_lt_l 5 q n Hnpos) as [_ Hmul]. specialize (Hmul Hle).
    split; intros; lra.
Qed.

Lemma dashboard_bar_width_witness :
  0 < 600 ∧ (1 ≤ 60)%nat ∧ (1 ≤ 5)%nat
  ∧ ∃ b, dashboardBarWidth (Fin 600) 60 5 = Fin b ∧ 5 <= b.
Proof.
  assert (Hw : 0 < 600) by lra.
  destruct (dashboard_bar_width 600 60 5 Hw ltac:(lia) ltac:(lia))
    as (b & Hb & Hmin & _).
  split; [done|]. split; [lia|]. split; [lia|].
  exists b. split; [exact Hb | exact Hmin].
Defined.
